(** * mathlib-port-status: the graph engine and state derivation of [make_html.py]

    A shallow embedding of the parts of [src/make_html.py] that decide the
    port state of a file, its place in the import graph, its priority key and
    the degraded paths of the reconciler, followed by the properties proved
    about them.

    Conventions of the embedding:
    - a Python exception is a value of [exn]; a call that may raise returns
      [result A];
    - Python truthiness is written out ([py_truthy_int], [py_truthy_obj]);
    - a [networkx.DiGraph] is a record of its node list and its edge list, in
      insertion order and without duplicates;
    - the dictionary [data] of [get_data] is a [gmap] from import names to
      [Mathlib3FileData]; a reference to another entry of [data] (an element
      of [dependents] or [dependencies]) is the key of that entry;
    - the memoised [get_data] is its body together with the cache that a
      call reads and fills ([get_data_cached]); a write into the dictionary
      that it handed out is a step on that cache ([cache_step]);
    - what lies outside the file (the file system, the repositories, GitHub)
      is a parameter of the section that uses it, with the failures it can
      have. *)

From Stdlib Require Import ZArith String Ascii.
From stdpp Require Import gmap strings list relations.

Local Open Scope string_scope.
Local Open Scope Z_scope.

(* ===================================================================== *)
(** * Part I: definitions *)
(* ===================================================================== *)

(** ** Exceptions and results *)

Inductive exn : Type :=
  | IndexError
  | KeyError
  | ValueError
  | RateLimitExceededException
  | NetworkXError
  | OtherError.

Inductive result (A : Type) : Type :=
  | Return (a : A)
  | Raise (e : exn).
Arguments Return {A} a.
Arguments Raise {A} e.

#[global] Instance result_ret : MRet result := fun A a => Return a.
#[global] Instance result_bind : MBind result := fun A B k m =>
  match m with
  | Return a => k a
  | Raise e => Raise e
  end.

(** [for x in xs: acc = body(acc, x)] where the body may raise. *)
Fixpoint foldlM {A B : Type} (body : A -> B -> result A) (acc : A) (xs : list B)
  : result A :=
  match xs with
  | [] => Return acc
  | x :: xs' => acc' ← body acc x; foldlM body acc' xs'
  end.

(** ** Strings *)

Definition newline : ascii := "010"%char.
Definition space : ascii := " "%char.
Definition dot : ascii := "."%char.

(** [s.split(c)] for a single character [c]: never empty, a trailing
    separator gives a last empty piece. *)
Fixpoint split_on (c : ascii) (s : string) : list string :=
  match s with
  | EmptyString => [EmptyString]
  | String a r =>
      if Ascii.eqb a c then EmptyString :: split_on c r
      else match split_on c r with
           | [] => [String a EmptyString]
           | l :: ls => String a l :: ls
           end
  end.

(** [text.split('\n')] *)
Definition split_lines (s : string) : list string := split_on newline s.

(** The longest prefix without a space. *)
Fixpoint non_space_prefix (s : string) : string :=
  match s with
  | EmptyString => EmptyString
  | String c r =>
      if Ascii.eqb c space then EmptyString else String c (non_space_prefix r)
  end.

(** [s.startswith(p)]. *)
Definition startswith (p s : string) : bool := String.prefix p s.

(** [s.endswith(p)]. *)
Definition endswith (p s : string) : bool :=
  (String.length p <=? String.length s)%nat
  && String.eqb (substring (String.length s - String.length p) (String.length p) s) p.

(** [s.rfind('.')], [None] for -1. *)
Fixpoint rfind_dot (s : string) : option nat :=
  match s with
  | EmptyString => None
  | String c r =>
      match rfind_dot r with
      | Some i => Some (S i)
      | None => if Ascii.eqb c dot then Some 0%nat else None
      end
  end.

(** ['.'.join(parts)]. *)
Fixpoint join_dot (ps : list string) : string :=
  match ps with
  | [] => EmptyString
  | [p] => p
  | p :: ps' => p +:+ "." +:+ join_dot ps'
  end.

(** ** Python truthiness *)

(** [bool(x)] for [x : Optional[int]]: [None] and [0] are false. *)
Definition py_truthy_int (x : option Z) : bool :=
  match x with
  | Some n => negb (n =? 0)
  | None => false
  end.

(** [bool(x)] for an optional object without [__bool__] or [__len__]. *)
Definition py_truthy_obj {A : Type} (x : option A) : bool :=
  match x with
  | Some _ => true
  | None => false
  end.

(** ** The status records ([port_status_yaml.PortStatusEntry]) *)

Record Source : Type := mkSource {
  repo : string;
  commit : string
}.

Record PortStatusEntry : Type := mkPortStatusEntry {
  ported : bool;
  source : option Source;
  mathlib4_pr : option Z;
  mathlib4_file : option string
}.

(** ** Version control objects *)

Record Commit : Type := mkCommit {
  hexsha : string
}.

Record FileHistoryEntry : Type := mkFileHistoryEntry {
  h_source : Source
}.

(** ** [PortState] *)

Inductive PortState : Type :=
  | UNPORTED
  | IN_PROGRESS
  | PORTED.

#[global] Instance PortState_eq_dec : EqDecision PortState.
Proof. solve_decision. Defined.

(** ** [ForwardPortInfo] and [Mathlib3FileData] *)

Record ForwardPortInfo : Type := mkForwardPortInfo {
  base_commit : Commit;
  all_unported_commits : list (Commit * option string);
  all_ported_commits : list (Commit * option string);
  diff_lines : list string
}.

Record Label : Type := mkLabel {
  label_name : string;
  label_color : string;
  label_text_color : string
}.

Record Mathlib3FileData : Type := mkMathlib3FileData {
  mathlib3_import : list string;
  status : PortStatusEntry;
  lines : option Z;
  labels : list Label;
  dependents : option (list string);
  dependencies : option (list string);
  forward_port : option ForwardPortInfo;
  mathlib4_history : list FileHistoryEntry
}.

(** [Mathlib3FileData.state] *)
Definition state (self : Mathlib3FileData) : PortState :=
  if ported (status self) then PORTED
  else if py_truthy_int (mathlib4_pr (status self))
          && py_truthy_obj (source (status self))
  then IN_PROGRESS
  else UNPORTED.

(** The classifier rule in the words of the specification: presence of the
    pull-request id and of the source reference decides, whatever the id. *)
Definition spec_state (e : PortStatusEntry) : PortState :=
  if ported e then PORTED
  else match mathlib4_pr e, source e with
       | Some _, Some _ => IN_PROGRESS
       | _, _ => UNPORTED
       end.

(** [sys.maxsize] of a 64-bit CPython. *)
Definition sys_maxsize : Z := 2 ^ 63 - 1.

Definition IN_PROGRESS_EQUIV_UNPORTED : Z := 5.

Section Scorer.
(** The dictionary built by [get_data], through which the references held
    in [dependencies] are read. *)
Context (data : gmap string Mathlib3FileData).

(** [x.state == s] for the entry [x] that the reference [k] points to. *)
Definition ref_has_state (s : PortState) (k : string) : bool :=
  bool_decide (state <$> data !! k = Some s).

(** [len([x for x in deps if x.state == s])] *)
Definition count_state (deps : list string) (s : PortState) : Z :=
  Z.of_nat (length (List.filter (ref_has_state s) deps)).

(** [Mathlib3FileData.dep_counts] *)
Definition dep_counts (self : Mathlib3FileData) : option (Z * Z * Z) :=
  match dependencies self with
  | Some deps =>
      Some (count_state deps UNPORTED,
            count_state deps IN_PROGRESS,
            count_state deps PORTED)
  | None => None
  end.

(** [Mathlib3FileData.dep_counts_sort_key] *)
Definition dep_counts_sort_key (self : Mathlib3FileData) : Z :=
  match dep_counts self with
  | None => sys_maxsize
  | Some (u, i, p) => u * 10000 * IN_PROGRESS_EQUIV_UNPORTED + i * 10000
  end.
End Scorer.

(** ** The version-control accessor and [commit_exists] *)

Definition mathlib_dir : list string := ["build"; "repos"; "mathlib"].
Definition mathlib4_dir : list string := ["build"; "repos"; "mathlib4"].

Inductive Warning : Type :=
  | UnableToFetchLabels
  | NoBaseCommit (f_import : string)
  | NoSyncCommit (f_import : string)
  | NoCommitsAtAll (f_import : string) (s : PortState).

(** What the reconciler does with one file once the fences are chosen. *)
Inductive Fences : Type :=
  | Skipped
  | Proceed (base sync : Commit).

Section VersionControl.
(** [git.Repo(dir)] and [repo.commit(rev)] of GitPython, both of which may
    raise. *)
Context {Repo : Type}.
Context (git_Repo : list string -> result Repo).
Context (repo_commit : Repo -> string -> result Commit).

(** [get_repo_by_github_name] *)
Definition get_repo_by_github_name (url : string) : result Repo :=
  if String.eqb url "leanprover-community/mathlib" then git_Repo mathlib_dir
  else if String.eqb url "leanprover-community/mathlib4" then git_Repo mathlib4_dir
  else Raise KeyError.

(** [commit_exists] *)
Definition commit_exists (src : Source) : result bool :=
  match get_repo_by_github_name (repo src) with
  | Raise KeyError => Return true
  | Raise e => Raise e
  | Return r =>
      match repo_commit r (commit src) with
      | Raise ValueError => Return false
      | Raise e => Raise e
      | Return _ => Return true
      end
  end.

(** [try: c = mathlib_repo.commit(rev) / except Exception: c = None] *)
Definition try_commit (mathlib_repo : Repo) (rev : string) : option Commit :=
  match repo_commit mathlib_repo rev with
  | Return c => Some c
  | Raise _ => None
  end.

(** The loop over the history that keeps the first commit that resolves. *)
Fixpoint first_real_commit (mathlib_repo : Repo) (hs : list FileHistoryEntry)
  : option Commit :=
  match hs with
  | [] => None
  | h :: hs' =>
      match repo_commit mathlib_repo (commit (h_source h)) with
      | Return c => Some c
      | Raise _ => first_real_commit mathlib_repo hs'
      end
  end.

(** The two fences that [make_out_of_sync] computes for one file before any
    substitution: [(base_commit, sync_commit)]. *)
Definition resolved_fences (mathlib_repo : Repo) (f_status : Mathlib3FileData)
  (src : Source) : option Commit * option Commit :=
  (first_real_commit mathlib_repo (reverse (mathlib4_history f_status)),
   try_commit mathlib_repo (commit src)).

(** The body of the first loop of [make_out_of_sync] up to the choice of the
    fences: the warnings logged and whether the file is skipped. *)
Definition choose_fences (mathlib_repo : Repo) (f_import : string)
  (f_status : Mathlib3FileData) : list Warning * Fences :=
  match source (status f_status) with
  | None => ([], Skipped)
  | Some src =>
      if negb (String.eqb (repo src) "leanprover-community/mathlib")
      then ([], Skipped)
      else
        match resolved_fences mathlib_repo f_status src with
        | (None, Some sync_commit) =>
            (if bool_decide (state f_status = PORTED)
             then [NoBaseCommit f_import] else [],
             Proceed sync_commit sync_commit)
        | (Some base, None) =>
            (if bool_decide (state f_status <> UNPORTED)
             then [NoSyncCommit f_import] else [],
             Proceed base base)
        | (None, None) =>
            (if bool_decide (state f_status <> UNPORTED)
             then [NoCommitsAtAll f_import (state f_status)] else [],
             Skipped)
        | (Some base, Some sync_commit) => ([], Proceed base sync_commit)
        end
  end.
End VersionControl.

(** ** [github_labels] *)

Section Labels.
(** [mathlib4repo().get_pull(pr).get_labels()]: the name and the colour of
    each label, or the exception raised. *)
Context (get_pull_labels : Z -> result (list (string * string))).
(** [os.environ] *)
Context (environ : gmap string string).
(** The inner [text_color_of_color], which works on floating point numbers
    and is left abstract. *)
Context (text_color_of_color : string -> string).

Definition label_of_raw (raw : string * string) : Label :=
  {| label_name := raw.1;
     label_color := raw.2;
     label_text_color := text_color_of_color raw.2 |}.

(** [github_labels], with the warnings it emits. *)
Definition github_labels (pr : Z) : list Warning * result (list Label) :=
  match get_pull_labels pr with
  | Raise RateLimitExceededException =>
      if bool_decide (is_Some (environ !! "GITPOD_HOST"))
      then ([UnableToFetchLabels], Return [])
      else ([], Raise RateLimitExceededException)
  | Raise e => ([], Raise e)
  | Return raw_labels => ([], Return (label_of_raw <$> raw_labels))
  end.
End Labels.

(** ** [networkx.DiGraph] *)

Record DiGraph : Type := mkDiGraph {
  nodes : list string;
  edges : list (string * string)
}.

Definition empty_graph : DiGraph := {| nodes := []; edges := [] |}.

(** [graph.add_node(n)] *)
Definition add_node (n : string) (g : DiGraph) : DiGraph :=
  if decide (n ∈ nodes g) then g
  else {| nodes := nodes g ++ [n]; edges := edges g |}.

(** [graph.add_edge(u, v)]: both ends become nodes. *)
Definition add_edge (u v : string) (g : DiGraph) : DiGraph :=
  let g' := add_node v (add_node u g) in
  if decide ((u, v) ∈ edges g') then g'
  else {| nodes := nodes g'; edges := edges g' ++ [(u, v)] |}.

(** [graph.remove_edge(u, v)] *)
Definition remove_edge (e : string * string) (g : DiGraph) : DiGraph :=
  {| nodes := nodes g; edges := filter (fun e' => e' <> e) (edges g) |}.

(** [G[u]]: the successors of [u]. *)
Definition successors (g : DiGraph) (u : string) : list string :=
  (filter (fun e => e.1 = u) (edges g)).*2.

(** [G.reverse()] *)
Definition reverse_graph (g : DiGraph) : DiGraph :=
  {| nodes := nodes g; edges := (fun e => (e.2, e.1)) <$> edges g |}.

(** The edge relation and reachability along at least one edge. *)
Definition edge (g : DiGraph) (u v : string) : Prop := (u, v) ∈ edges g.
Definition reaches (g : DiGraph) : relation string := tc (edge g).

(** The nodes at the end of a walk of 1 to [n] edges from [u]. *)
Fixpoint walk_ends (n : nat) (g : DiGraph) (u : string) : list string :=
  match n with
  | O => []
  | S n' => successors g u ++ (successors g u ≫= walk_ends n' g)
  end.

(** The search from [u] that [nx.descendants] and [nx.dfs_edges] run: every
    node other than [u] that a walk from [u] ends in. A walk that visits no
    node twice has at most as many edges as the graph. *)
Definition descendants (g : DiGraph) (u : string) : list string :=
  remove_dups (filter (fun v => v <> u) (walk_ends (length (edges g)) g u)).

(** [nx.ancestors]: the same search along the predecessors. *)
Definition ancestors (g : DiGraph) (u : string) : list string :=
  descendants (reverse_graph g) u.

(** [nx.is_directed_acyclic_graph] *)
Definition is_directed_acyclic_graph (g : DiGraph) : bool :=
  forallb (fun u => bool_decide (u ∉ walk_ends (length (edges g)) g u))
          ((edges g).*1).

(** The inner loop of [nx.transitive_reduction] for one node [u]: every
    successor [v] still in [u_nbrs] removes its descendants from [u_nbrs]. *)
Definition reduce_nbrs (g : DiGraph) (vs u_nbrs : list string) : list string :=
  foldl (fun nbrs v =>
           if decide (v ∈ nbrs)
           then filter (fun w => w ∉ descendants g v) nbrs
           else nbrs)
        u_nbrs vs.

(** Modelled from the spec: [nx.transitive_reduction] is a function of the
    networkx library and not part of the sources; section 4.1 names its
    result (the minimal subgraph with the same reachability, for acyclic
    graphs only).  The definition follows the library's algorithm: a graph
    with a cycle is refused with [NetworkXError]; otherwise the result has
    the nodes of [G] and, from every node [u], the successors of [u] that
    are left once every successor has removed its own descendants. *)
Definition transitive_reduction (g : DiGraph) : result DiGraph :=
  if is_directed_acyclic_graph g then
    Return {| nodes := nodes g;
              edges := u ← nodes g;
                       (fun v => (u, v))
                         <$> reduce_nbrs g (successors g u) (successors g u) |}
  else Raise NetworkXError.

(** ** [parse_imports] *)

(** A file below [root_path]: its path relative to [root_path], component by
    component, and what [path.read_text()] gives for it: the decoded text,
    or the exception raised when the file cannot be read or decoded. *)
Record SourceFile : Type := mkSourceFile {
  rel : list string;
  read_text : result string
}.

(** The text of a file that can be read. *)
Definition text (f : SourceFile) : string :=
  match read_text f with
  | Return t => t
  | Raise _ => EmptyString
  end.

(** The glob of [root_path] for Lean files, at any depth: the files whose
    name ends in [.lean]. *)
Definition glob_lean (tree : list SourceFile) : list SourceFile :=
  List.filter (fun f => match last (rel f) with
                        | Some name => endswith ".lean" name
                        | None => false
                        end) tree.

(** [path.parts] of a path that the glob yields: the parts of [root_path]
    come first. *)
Definition path_parts (root_path : list string) (f : SourceFile) : list string :=
  root_path ++ rel f.

(** [PurePath.with_suffix('')] on the last component: the suffix starts at
    the last dot, unless that dot is the first or the last character. *)
Definition strip_suffix (name : string) : string :=
  match rfind_dot name with
  | Some i =>
      if ((0 <? i) && (i <? String.length name - 1))%nat
      then substring 0 i name
      else name
  | None => name
  end.

Fixpoint strip_last_suffix (ps : list string) : list string :=
  match ps with
  | [] => []
  | [name] => [strip_suffix name]
  | p :: ps' => p :: strip_last_suffix ps'
  end.

(** [mk_label]: [path.relative_to(root_path)] is [rel f]. *)
Definition mk_label (f : SourceFile) : string :=
  join_dot (strip_last_suffix (rel f)).

(** [path.parts[1] in ['tactic', 'meta']] *)
Definition in_excluded_category (root_path : list string) (f : SourceFile)
  : result bool :=
  match path_parts root_path f !! 1%nat with
  | Some p => Return (bool_decide (p ∈ ["tactic"; "meta"]))
  | None => Raise IndexError
  end.

(** [import_re.match(line)]: the line starts with the word import and one
    space; [m.group(1)] is the run of characters other than a space that
    follows. *)
Definition import_re_match (line : string) : option string :=
  if startswith "import " line
  then Some (non_space_prefix (substring 7 (String.length line - 7) line))
  else None.

(** [imported.startswith('tactic.') or imported.startswith('meta.')] *)
Definition ignored_import (imported : string) : bool :=
  startswith "tactic." imported || startswith "meta." imported.

(** Lines 118 to 122: the node an import refers to in the graph [g]. *)
Definition resolve_import (g : DiGraph) (imported : string) : string :=
  if decide (imported ∈ nodes g) then imported
  else if decide (imported +:+ ".default" ∈ nodes g)
       then imported +:+ ".default"
       else "lean_core." +:+ imported.

(** The body of the loop over the lines of one file. *)
Definition scan_line (label : string) (g : DiGraph) (line : string) : DiGraph :=
  match import_re_match line with
  | Some imported =>
      if ignored_import imported then g
      else add_edge (resolve_import g imported) label g
  | None => g
  end.

(** The body of the first loop over the files. *)
Definition add_file_node (root_path : list string) (g : DiGraph) (f : SourceFile)
  : result DiGraph :=
  skip ← in_excluded_category root_path f;
  if skip : bool then Return g else Return (add_node (mk_label f) g).

(** The body of the second loop over the files. *)
Definition scan_file (root_path : list string) (g : DiGraph) (f : SourceFile)
  : result DiGraph :=
  skip ← in_excluded_category root_path f;
  if skip : bool then Return g
  else t ← read_text f;
       Return (foldl (scan_line (mk_label f)) g (split_lines t)).

(** [parse_imports(root_path)], on the files found below [root_path]. *)
Definition parse_imports (root_path : list string) (tree : list SourceFile)
  : result DiGraph :=
  g ← foldlM (add_file_node root_path) empty_graph (glob_lean tree);
  foldlM (scan_file root_path) g (glob_lean tree).

(** The import rule in the words of the specification: the redirection to
    the [.default] node comes first, then the test for a known node. *)
Definition spec_resolve_import (g : DiGraph) (imported : string) : string :=
  if decide (imported +:+ ".default" ∈ nodes g) then imported +:+ ".default"
  else if decide (imported ∈ nodes g) then imported
       else "lean_core." +:+ imported.

Definition import_rule_as_stated (root_path : list string)
  (tree : list SourceFile) : Prop :=
  forall g f line imported,
    parse_imports root_path tree = Return g ->
    f ∈ glob_lean tree ->
    in_excluded_category root_path f = Return false ->
    line ∈ split_lines (text f) ->
    import_re_match line = Some imported ->
    (spec_resolve_import g imported, mk_label f) ∈ edges g.

(** ** The source file of an import name *)

Definition slash : ascii := "/"%char.

(** A path of [pathlib] on a POSIX system: whether it has a root, and its
    components below the root. *)
Record PurePath : Type := mkPurePath { anchored : bool; segments : list string }.

(** The components that one argument of [Path(...)] brings: its pieces
    between slashes, the empty ones and the single dots left out. *)
Definition part_segments (p : string) : list string :=
  filter (fun s => s <> "" /\ s <> ".") (split_on slash p).

(** [Path] on the parts as its arguments: an argument that starts with a
    slash discards what comes before it. *)
Definition Path (parts : list string) : PurePath :=
  foldl (fun acc p =>
           if startswith "/" p
           then {| anchored := true; segments := part_segments p |}
           else {| anchored := anchored acc;
                   segments := segments acc ++ part_segments p |})
        {| anchored := false; segments := [] |} parts.

(** [a / b] *)
Definition joinpath (a b : PurePath) : PurePath :=
  if anchored b then b
  else {| anchored := anchored a; segments := segments a ++ segments b |}.

(** [p.with_suffix('.lean')]: [ValueError] for a path without a name, that
    is, without a component below the root. *)
Definition with_suffix_lean (p : PurePath) : result PurePath :=
  match last (segments p) with
  | None => Raise ValueError
  | Some name =>
      Return {| anchored := anchored p;
                segments := removelast (segments p)
                            ++ [strip_suffix name +:+ ".lean"] |}
  end.

Section SourceLines.
(** Lines 292 to 296 for the path of a file: the number of its lines;
    [None] when [open] or [readlines] fails with [IOError]; the exception
    when they fail in another way, as [readlines] does with
    [UnicodeDecodeError], a [ValueError], on a file that is not valid text. *)
Context (read_line_count : PurePath -> result (option Z)).

(** Lines 291 to 296 for an import name. The path is built before the [try]
    block is entered. *)
Definition source_line_count (f_import : string) : result (option Z) :=
  p ← with_suffix_lean (Path (split_on dot f_import));
  read_line_count (joinpath (joinpath (Path mathlib_dir) (Path ["src"])) p).
End SourceLines.

(** ** [get_data] *)

Section Aggregator.
(** Lines 291 to 296 for an import name, which [source_line_count] spells
    out: the number of lines of its source; [None] when opening or reading
    the file fails with [IOError]; the exception when the path cannot be
    built or when the read fails in another way. *)
Context (count_lines : string -> result (option Z)).
(** [github_labels] *)
Context (labels_of : Z -> result (list Label)).
(** [get_mathlib4_history(git.Repo(mathlib4_dir))], which may raise. *)
Context (history : result (gmap string (list FileHistoryEntry))).
(** The module-level [graph], already reduced. *)
Context (graph : DiGraph).

(** The body of the first loop. *)
Definition new_file_data (data : gmap string Mathlib3FileData)
  (item : string * PortStatusEntry) : result (gmap string Mathlib3FileData) :=
  let f_import := item.1 in
  let f_status := item.2 in
  n ← count_lines f_import;
  lbls ← match mathlib4_pr f_status with
         | Some pr =>
             if negb (ported f_status) && negb (pr =? 0)
             then labels_of pr else Return []
         | None => Return []
         end;
  Return (<[f_import :=
              {| mathlib3_import := split_on dot f_import;
                 status := f_status;
                 lines := n;
                 labels := lbls;
                 dependents := None;
                 dependencies := None;
                 forward_port := None;
                 mathlib4_history := [] |}]> data).

(** [[data[k] for k in ks if k in data]], as references into [data]. *)
Definition tracked (data : gmap string Mathlib3FileData) (ks : list string)
  : list string :=
  filter (fun k => is_Some (data !! k)) ks.

(** The body of the second loop. The attachment of [f_data] to the node of
    the graph, which only the rendering of the subgraph reads, is left out. *)
Definition attach_graph_data (data : gmap string Mathlib3FileData)
  (f_import : string) (f_data : Mathlib3FileData) : Mathlib3FileData :=
  if decide (f_import ∈ nodes graph) then
    {| mathlib3_import := mathlib3_import f_data;
       status := status f_data;
       lines := lines f_data;
       labels := labels f_data;
       dependents := Some (tracked data (descendants graph f_import));
       dependencies := Some (tracked data (ancestors graph f_import));
       forward_port := forward_port f_data;
       mathlib4_history := mathlib4_history f_data |}
  else f_data.

(** The body of the third loop, for the history [h] that was read. *)
Definition attach_history (h : gmap string (list FileHistoryEntry))
  (f_import : string) (f_data : Mathlib3FileData) : Mathlib3FileData :=
  {| mathlib3_import := mathlib3_import f_data;
     status := status f_data;
     lines := lines f_data;
     labels := labels f_data;
     dependents := dependents f_data;
     dependencies := dependencies f_data;
     forward_port := forward_port f_data;
     mathlib4_history := default [] (h !! f_import) |}.

(** The body of [get_data], on the items of [port_status]. [get_data] is
    memoised: the body runs once, at the first call, and every call returns
    the dictionary built here, in the state it has by then (see
    [set_forward_port]). *)
Definition get_data (port_status : list (string * PortStatusEntry))
  : result (gmap string Mathlib3FileData) :=
  data ← foldlM new_file_data ∅ port_status;
  let data' := map_imap (fun k d => Some (attach_graph_data data k d)) data in
  h ← history;
  Return (map_imap (fun k d => Some (attach_history h k d)) data').
End Aggregator.

(** ** Walks, acyclic graphs and the order in which a graph grows *)

(** A walk from [u]: the nodes visited after [u], one edge at a time. *)
Fixpoint walk (g : DiGraph) (u : string) (p : list string) : Prop :=
  match p with
  | [] => True
  | v :: p' => edge g u v /\ walk g v p'
  end.

Definition acyclic (g : DiGraph) : Prop := forall u, ~ reaches g u u.

(** Both ends of every edge are nodes, as [add_edge] ensures. *)
Definition wf_graph (g : DiGraph) : Prop :=
  forall u v, edge g u v -> u ∈ nodes g /\ v ∈ nodes g.

(** [g'] has the nodes and the edges of [g], and possibly more. *)
Definition graph_le (g g' : DiGraph) : Prop :=
  nodes g ⊆ nodes g' /\ edges g ⊆ edges g'.

(** ** The run of [parse_imports], line by line *)

(** Whether the loops of [parse_imports] go past the test of lines 104 and
    109 for the file [f]. *)
Definition is_scanned (root_path : list string) (f : SourceFile) : bool :=
  match in_excluded_category root_path f with
  | Return false => true
  | _ => false
  end.

(** The files that the loops do not skip, in the order of the glob. *)
Definition scanned_files (root_path : list string) (tree : list SourceFile)
  : list SourceFile :=
  List.filter (is_scanned root_path) (glob_lean tree).

(** The graph when the first loop is over. *)
Definition first_pass_graph (root_path : list string) (tree : list SourceFile)
  : DiGraph :=
  foldl (fun g f => add_node (mk_label f) g) empty_graph
        (scanned_files root_path tree).

(** The lines of one file, each with the label of the file. *)
Definition file_steps (f : SourceFile) : list (string * string) :=
  (fun line => (mk_label f, line)) <$> split_lines (text f).

(** Every line that the second loop scans, with the label of its file, in
    the order in which the lines are scanned. *)
Definition scan_steps (root_path : list string) (tree : list SourceFile)
  : list (string * string) :=
  scanned_files root_path tree ≫= file_steps.

(** The body of the inner loop, at the line [s.2] of the file of label
    [s.1]. *)
Definition scan_step (g : DiGraph) (s : string * string) : DiGraph :=
  scan_line s.1 g s.2.

(** The graph at the time the line of index [i] of [scan_steps] is scanned:
    the first loop is over and the lines before that one have been scanned. *)
Definition graph_before (root_path : list string) (tree : list SourceFile)
  (i : nat) : DiGraph :=
  foldl scan_step (first_pass_graph root_path tree)
        (take i (scan_steps root_path tree)).

(** ** Example inputs *)

Definition mathlib_source (c : string) : Source :=
  {| repo := "leanprover-community/mathlib"; commit := c |}.

Definition entry (p : bool) (src : option Source) (pr : option Z)
  : PortStatusEntry :=
  {| ported := p; source := src; mathlib4_pr := pr; mathlib4_file := None |}.

Definition file_of (name : string) (e : PortStatusEntry)
  (deps : option (list string)) (hist : list FileHistoryEntry)
  : Mathlib3FileData :=
  {| mathlib3_import := split_on dot name;
     status := e;
     lines := None;
     labels := [];
     dependents := None;
     dependencies := deps;
     forward_port := None;
     mathlib4_history := hist |}.

(** A pull request numbered 0 with a recorded source commit. *)
Definition file_pr_zero : Mathlib3FileData :=
  file_of "a" (entry false (Some (mathlib_source "c0ffee")) (Some 0)) None [].

Definition file_in_progress : Mathlib3FileData :=
  file_of "b" (entry false (Some (mathlib_source "c0ffee")) (Some 42)) None [].

(** The scenario of the specification: C imports B imports A; A is ported,
    B in progress, C unported. *)
Definition abc_data : gmap string Mathlib3FileData :=
  <["A" := file_of "A" (entry true (Some (mathlib_source "aaaa")) (Some 1)) (Some []) []]>
  (<["B" := file_of "B" (entry false (Some (mathlib_source "bbbb")) (Some 42)) (Some ["A"]) []]>
  (<["C" := file_of "C" (entry false None None) (Some ["A"; "B"]) []]> ∅)).

Definition file_A : Mathlib3FileData :=
  file_of "A" (entry true (Some (mathlib_source "aaaa")) (Some 1)) (Some []) [].
Definition file_C : Mathlib3FileData :=
  file_of "C" (entry false None None) (Some ["A"; "B"]) [].
Definition file_untracked : Mathlib3FileData :=
  file_of "D" (entry false None None) None [].

(** A repository that knows the two commits [aaaa] and [bbbb]; any other
    well-formed hash is refused with [ValueError]. *)
Definition toy_git_Repo (dir : list string) : result (list string) := Return dir.
Definition toy_repo_commit (r : list string) (rev : string) : result Commit :=
  if String.eqb rev "aaaa" then Return {| hexsha := "aaaa" |}
  else if String.eqb rev "bbbb" then Return {| hexsha := "bbbb" |}
  else Raise ValueError.

(** A ported file whose recorded commit resolves and whose history does not. *)
Definition file_no_base : Mathlib3FileData :=
  file_of "A" (entry true (Some (mathlib_source "aaaa")) (Some 1)) None
          [{| h_source := mathlib_source "dead" |}].
(** An in-progress file whose recorded commit is gone, with a good history. *)
Definition file_no_sync : Mathlib3FileData :=
  file_of "B" (entry false (Some (mathlib_source "dead")) (Some 42)) None
          [{| h_source := mathlib_source "bbbb" |};
           {| h_source := mathlib_source "beef" |}].
(** An unported file with neither. *)
Definition file_no_fence : Mathlib3FileData :=
  file_of "C" (entry false (Some (mathlib_source "dead")) None) None [].

(** A label source that is always out of quota. *)
Definition exhausted_labels (pr : Z) : result (list (string * string)) :=
  Raise RateLimitExceededException.
Definition gitpod_environ : gmap string string :=
  <["GITPOD_HOST" := "https://gitpod.io"]> ∅.
Definition plain_text_color (color : string) : string := "black".

Definition lf : string := String newline EmptyString.

(** [A.lean] next to [A/default.lean], and [B.lean] with [import A]. *)
Definition tree_default_clash : list SourceFile :=
  [ {| rel := ["A.lean"]; read_text := Return "" |};
    {| rel := ["A"; "default.lean"]; read_text := Return "" |};
    {| rel := ["B.lean"]; read_text := Return ("import A" +:+ lf) |} ].

(** [A/default.lean] alone, and [B.lean] with [import A] and an import from
    outside the tree. *)
Definition tree_default : list SourceFile :=
  [ {| rel := ["A"; "default.lean"]; read_text := Return "" |};
    {| rel := ["B.lean"];
       read_text := Return ("import A" +:+ lf +:+ "import system.io" +:+ lf) |} ].

(** [A.lean] without imports and [B.lean] with [import A]. *)
Definition tree_ab : list SourceFile :=
  [ {| rel := ["A.lean"]; read_text := Return ("-- no imports" +:+ lf) |};
    {| rel := ["B.lean"]; read_text := Return ("import A" +:+ lf +:+ lf +:+ "def b := 1") |} ].

(** C imports A and B, B imports A. *)
Definition tree_abc : list SourceFile :=
  [ {| rel := ["A.lean"]; read_text := Return "" |};
    {| rel := ["B.lean"]; read_text := Return ("import A" +:+ lf) |};
    {| rel := ["C.lean"]; read_text := Return ("import A" +:+ lf +:+ "import B" +:+ lf) |} ].

Definition graph_abc : DiGraph :=
  {| nodes := ["A"; "B"; "C"];
     edges := [("A", "B"); ("A", "C"); ("B", "C")] |}.

Definition reduced_abc : DiGraph :=
  {| nodes := ["A"; "B"; "C"]; edges := [("A", "B"); ("B", "C")] |}.

(** The root that [make_html.py] passes: [mathlib_dir / 'src']. *)
Definition deployed_root : list string := mathlib_dir ++ ["src"].

(** A file of the excluded category and a file that imports it. *)
Definition tactic_ring : SourceFile :=
  {| rel := ["tactic"; "ring.lean"]; read_text := Return ("import algebra.group" +:+ lf) |}.
Definition tree_tactic : list SourceFile :=
  [ tactic_ring;
    {| rel := ["algebra"; "group.lean"]; read_text := Return ("import tactic.ring" +:+ lf) |} ].

Definition abc_port_status : list (string * PortStatusEntry) :=
  [ ("A", entry true (Some (mathlib_source "aaaa")) (Some 1));
    ("B", entry false (Some (mathlib_source "bbbb")) (Some 42));
    ("C", entry false None None) ].

Definition no_lines (f_import : string) : result (option Z) := Return None.
Definition no_history : result (gmap string (list FileHistoryEntry)) := Return ∅.
Definition no_labels (pr : Z) : result (list Label) := Return [].

(* ===================================================================== *)
(** * Part I, continued: the rest of [make_html.py] *)
(* ===================================================================== *)

(** ** More strings *)

(** [c in s] for a character [c]. *)
Fixpoint has_char (c : ascii) (s : string) : bool :=
  match s with
  | EmptyString => false
  | String a r => Ascii.eqb a c || has_char c r
  end.

(** [s.removeprefix(p)] *)
Definition removeprefix (p s : string) : string :=
  if startswith p s
  then substring (String.length p) (String.length s - String.length p) s
  else s.

(** ** [is_uninteresting_commit] and [commits_and_diffs_between] *)

Definition sync_comment_summary : string :=
  "chore(" +:+ String "*"%char "): add mathlib4 synchronization comments".

Section History.
(** [c.summary], which GitPython reads from the repository. *)
Context (summary_of : Commit -> string).
(** [repo.iter_commits(f'{a.hexsha}..{b.hexsha}', fname, reverse=True)]:
    the commits after [a] up to [b] that touch [fname], oldest first. *)
Context (iter_commits_touching : Commit -> Commit -> string -> list Commit).
(** [repo.iter_commits(f'{a.hexsha}..{b.hexsha}^', reverse=True)]: the
    commits after [a] and before [b], oldest first. *)
Context (iter_commits_before : Commit -> Commit -> list Commit).
(** [a.diff(b, paths=fname, create_patch=True)] *)
Context (commit_diff : Commit -> Commit -> string -> list string).

(** [is_uninteresting_commit] *)
Definition is_uninteresting_commit (c : Commit) : bool :=
  if startswith sync_comment_summary (summary_of c) then true
  else if String.eqb (hexsha c) "448144f7ae193a8990cb7473c9e9a01990f64ac7"
       then true
       else false.

(** [try: diff, = diffs / except ValueError: diff = None] *)
Definition only_diff (diffs : list string) : option string :=
  match diffs with
  | [d] => Some d
  | _ => None
  end.

(** [for c_between in ...: commits.insert(0, (c_between, None))] *)
Definition insert_between (commits : list (Commit * option string))
  (between : list Commit) : list (Commit * option string) :=
  foldl (fun acc c_between => (c_between, None) :: acc) commits between.

(** The body of the outer loop, on the pair [(commits, last)]. *)
Definition visit_commit (fname : string)
  (st : list (Commit * option string) * Commit) (c : Commit)
  : list (Commit * option string) * Commit :=
  let commits := insert_between st.1 (iter_commits_before st.2 c) in
  if is_uninteresting_commit c then ((c, None) :: commits, c)
  else ((c, only_diff (commit_diff st.2 c fname)) :: commits, c).

(** [commits_and_diffs_between] *)
Definition commits_and_diffs_between (base head : Commit) (fname : string)
  : list (Commit * option string) :=
  let st := foldl (visit_commit fname) ([], base)
                  (iter_commits_touching base head fname) in
  insert_between st.1 (iter_commits_before st.2 head).

End History.

(** The value of [last] when the outer loop of [commits_and_diffs_between]
    reaches the commit of index [i] of the commits it goes through, and when
    it is over for [i] their number: [base_commit] at first (line 51), then
    the commit of the round before (line 65). *)
Definition last_before (base : Commit) (touching : list Commit) (i : nat)
  : Commit :=
  match i with
  | O => base
  | S j => default base (touching !! j)
  end.

(** ** The properties of [ForwardPortInfo] *)

(** [ForwardPortInfo.diff_stat] *)
Definition diff_stat (self : ForwardPortInfo) : Z * Z :=
  (Z.of_nat (length (List.filter (startswith "+") (diff_lines self))),
   Z.of_nat (length (List.filter (startswith "-") (diff_lines self)))).

(** ** [get_github_name] *)

(** [get_github_name], on the urls of [repo.remotes]. [RuntimeError] is the
    [OtherError] of the embedding. *)
Definition get_github_name (remote_urls : list string) : result string :=
  match remote_urls !! 0%nat with
  | None => Raise IndexError
  | Some url =>
      if startswith "https://github.com/" url
      then Return (removeprefix "https://github.com/" url)
      else if startswith "git@github.com:" url
           then Return (removeprefix "git@github.com:" url)
           else Raise OtherError
  end.

(** ** [make_index]: the three groups *)

(** [groups[f_data.state][f_import] = f_data] *)
Definition add_to_group (f_import : string) (f_data : Mathlib3FileData)
  (groups : PortState -> gmap string Mathlib3FileData)
  : PortState -> gmap string Mathlib3FileData :=
  fun s => if decide (s = state f_data)
           then <[f_import := f_data]> (groups s)
           else groups s.

(** The loop of [make_index] over [data.items()]. *)
Definition make_index_groups (data : gmap string Mathlib3FileData)
  : PortState -> gmap string Mathlib3FileData :=
  map_fold add_to_group (fun _ => ∅) data.

(** ** [Mathlib3FileData.dep_graph_data] *)

(** [graph.subgraph(names)]: the nodes among [names] and the edges between
    them. *)
Definition subgraph (g : DiGraph) (names : list string) : DiGraph :=
  {| nodes := filter (fun n => n ∈ names) (nodes g);
     edges := filter (fun e => e.1 ∈ names /\ e.2 ∈ names) (edges g) |}.

(** [graph.nodes[n].get("data")] once [get_data] has run: the entry of
    [data] for a tracked file that is a node, nothing for another node. *)
Definition node_data_of (graph : DiGraph) (data : gmap string Mathlib3FileData)
  (n : string) : option Mathlib3FileData :=
  if decide (n ∈ nodes graph) then data !! n else None.

(** ['.'.join(d.mathlib3_import)] for the entry a reference points to. *)
Definition ref_name (data : gmap string Mathlib3FileData) (k : string)
  : option string :=
  (fun d => join_dot (mathlib3_import d)) <$> data !! k.

(** [dep_graph_data]: the edges of the subgraph and the state of each of its
    nodes that has data. Iterating over [dependencies] when it is [None] is a
    [TypeError], the [OtherError] of the embedding. *)
Definition dep_graph_data (graph : DiGraph) (data : gmap string Mathlib3FileData)
  (self : Mathlib3FileData)
  : result (list (string * string) * list (string * PortState)) :=
  match dependencies self with
  | None => Raise OtherError
  | Some deps =>
      let unported_deps :=
        List.filter (fun k => negb (ref_has_state data PORTED k)) deps in
      let unported_deps_names :=
        remove_dups (join_dot (mathlib3_import self)
                       :: omap (ref_name data) unported_deps) in
      let g := subgraph graph unported_deps_names in
      Return (edges g,
              omap (fun n => (fun d => (n, state d)) <$> node_data_of graph data n)
                   (nodes g))
  end.

(** ** More example inputs *)

Definition commit_a : Commit := {| hexsha := "aaaa" |}.
Definition commit_b : Commit := {| hexsha := "bbbb" |}.
Definition commit_c : Commit := {| hexsha := "cccc" |}.
Definition commit_s : Commit := {| hexsha := "448144f7ae193a8990cb7473c9e9a01990f64ac7" |}.

Definition commit_x : Commit := {| hexsha := "1111" |}.
Definition commit_y : Commit := {| hexsha := "2222" |}.

(** A history [a, x, b, s, y, c] in which [b] and [s] touch the file. *)
Definition toy_summary (c : Commit) : string := "feat: " +:+ hexsha c.
Definition toy_touching (a b : Commit) (fname : string) : list Commit :=
  [commit_b; commit_s].
Definition toy_before (a b : Commit) : list Commit :=
  if String.eqb (hexsha b) "bbbb" then [commit_x]
  else if String.eqb (hexsha b) "cccc" then [commit_y]
  else [].
Definition toy_diff (a b : Commit) (fname : string) : list string :=
  ["@@ -1 +1 @@"].


(** ** The builder and the module-level graph *)

(** The file [f] is one that both loops of [parse_imports] go through. *)
Definition scanned (root_path : list string) (tree : list SourceFile)
  (f : SourceFile) : Prop :=
  f ∈ glob_lean tree /\ in_excluded_category root_path f = Return false.

(** Lines 277 and 278: the module-level [graph]. *)
Definition module_graph (root_path : list string) (tree : list SourceFile)
  : result DiGraph :=
  g ← parse_imports root_path tree;
  transitive_reduction g.

(** A file named [.lean] and a file that imports itself. *)
Definition tree_dot_lean : list SourceFile :=
  [ {| rel := ["data"; ".lean"]; read_text := Return "" |};
    {| rel := ["data"; "nat.lean"]; read_text := Return "" |};
    {| rel := ["README.md"]; read_text := Return "import data.nat" |} ].

Definition tree_self_import : list SourceFile :=
  [ {| rel := ["A.lean"]; read_text := Return ("import A" +:+ lf) |} ].

(** A file that is not valid in the encoding of the locale: [read_text]
    raises [UnicodeDecodeError], which is a [ValueError]. *)
Definition tree_unreadable : list SourceFile :=
  [ {| rel := ["A.lean"]; read_text := Return "" |};
    {| rel := ["B.lean"]; read_text := Raise ValueError |} ].

(** ** Writes into the cached dictionary *)

(** [data[f_import].forward_port = info] (lines 403 and 405), for a key of
    [data]. [get_data] hands out the same dictionary at every call, so the
    entry is changed for every later reader of it. *)
Definition set_forward_port (f_import : string) (info : ForwardPortInfo)
  (data : gmap string Mathlib3FileData) : gmap string Mathlib3FileData :=
  alter (fun d => {| mathlib3_import := mathlib3_import d;
                     status := status d;
                     lines := lines d;
                     labels := labels d;
                     dependents := dependents d;
                     dependencies := dependencies d;
                     forward_port := Some info;
                     mathlib4_history := mathlib4_history d |})
        f_import data.

(** The dictionary after a run of such writes, first to last. *)
Definition after_writes (writes : list (string * ForwardPortInfo))
  (data : gmap string Mathlib3FileData) : gmap string Mathlib3FileData :=
  foldl (fun m w => set_forward_port w.1 w.2 m) data writes.

Section Cache.
Context (count_lines : string -> result (option Z)).
Context (labels_of : Z -> result (list Label)).
Context (history : result (gmap string (list FileHistoryEntry))).
Context (graph : DiGraph).
Context (port_status : list (string * PortStatusEntry)).

(** A call of [get_data] under [functools.cache] (line 284). [get_data]
    takes no argument, so that the cache holds at most one dictionary: that
    of the first call that returned. A call that raises stores nothing. The
    call hands out the stored dictionary itself, not a copy. *)
Definition get_data_cached (cache : option (gmap string Mathlib3FileData))
  : result (gmap string Mathlib3FileData
            * option (gmap string Mathlib3FileData)) :=
  match cache with
  | Some data => Return (data, Some data)
  | None =>
      data ← get_data count_lines labels_of history graph port_status;
      Return (data, Some data)
  end.

(** What the program does to the cache: a call of [get_data] (lines 325,
    354, 421 and 429), or the write of lines 403 and 405 into the dictionary
    that a call handed out, at one of its keys. *)
Inductive cache_step
  : relation (option (gmap string Mathlib3FileData)) :=
  | cache_call cache data cache' :
      get_data_cached cache = Return (data, cache') ->
      cache_step cache cache'
  | cache_write data f_import info :
      is_Some (data !! f_import) ->
      cache_step (Some data) (Some (set_forward_port f_import info data)).
End Cache.

(** The dictionary of the three example files. *)
Definition data_abc : gmap string Mathlib3FileData :=
  match get_data no_lines no_labels no_history reduced_abc abc_port_status with
  | Return data => data
  | Raise _ => ∅
  end.

Definition toy_forward_port : ForwardPortInfo :=
  {| base_commit := {| hexsha := "aaaa" |};
     all_unported_commits := [];
     all_ported_commits := [];
     diff_lines := ["@@ -1,2 +1,2 @@"; "-old"; "+new"; " same"] |}.

(** ** What the first loop of [get_data] records *)

(** The condition under which [get_data] asks for the labels of [pr]. *)
Definition needs_labels (e : PortStatusEntry) (pr : Z) : Prop :=
  ported e = false /\ mathlib4_pr e = Some pr /\ pr <> 0.

(** A file system without the sources, and one whose files are not valid
    text. *)
Definition no_file (path : PurePath) : result (option Z) := Return None.
Definition bad_text (path : PurePath) : result (option Z) := Raise ValueError.

(** A port status with a key that names no file. *)
Definition port_status_dot : list (string * PortStatusEntry) :=
  [ ("A", entry true (Some (mathlib_source "aaaa")) (Some 1));
    (".", entry false None None) ].

(* ===================================================================== *)
(** * Part II: properties *)
(* ===================================================================== *)

(** ** The port state classifier *)

(** C1 (as amended). The state is decided by [ported], [mathlib4_pr] and
    [source] alone, and exactly one state is assigned: PORTED when [ported]
    holds; IN_PROGRESS when it does not and both a pull-request id other than
    0 and a source reference are present; UNPORTED in every other case, among
    them a pull-request id without a source reference and the pull-request
    id 0, which Python takes for an absent one. *)
Theorem state_classification (self : Mathlib3FileData) :
  (ported (status self) = true -> state self = PORTED) /\
  (ported (status self) = false ->
   (exists n s, mathlib4_pr (status self) = Some n /\ n <> 0 /\
                source (status self) = Some s) ->
   state self = IN_PROGRESS) /\
  (ported (status self) = false ->
   (mathlib4_pr (status self) = None \/ mathlib4_pr (status self) = Some 0 \/
    source (status self) = None) ->
   state self = UNPORTED) /\
  (forall other : Mathlib3FileData,
     ported (status other) = ported (status self) ->
     mathlib4_pr (status other) = mathlib4_pr (status self) ->
     source (status other) = source (status self) ->
     state other = state self).
Proof.
  unfold state. repeat split.
  - intros ->. reflexivity.
  - intros -> (n & s & -> & Hn & ->). simpl.
    apply Z.eqb_neq in Hn. rewrite Hn. reflexivity.
  - intros -> [-> | [-> | ->]]; simpl; try reflexivity.
    destruct (py_truthy_int _); reflexivity.
  - intros other -> -> ->. reflexivity.
Qed.

Lemma state_classification_witness :
  state file_in_progress = IN_PROGRESS /\ state file_pr_zero = UNPORTED.
Proof.
  split.
  - apply (proj1 (proj2 (state_classification file_in_progress)));
      [reflexivity|].
    exists 42, (mathlib_source "c0ffee"). split; [reflexivity|]. split; [lia|reflexivity].
  - apply (proj1 (proj2 (proj2 (state_classification file_pr_zero))));
      [reflexivity|].
    right; left; reflexivity.
Defined.

(** C1 as stated fails on a record with the pull-request id 0 and a source
    reference: the id is present, and the file is classified UNPORTED. *)
Lemma state_pr_zero_counterexample :
  ported (status file_pr_zero) = false /\
  is_Some (mathlib4_pr (status file_pr_zero)) /\
  is_Some (source (status file_pr_zero)) /\
  spec_state (status file_pr_zero) = IN_PROGRESS /\
  state file_pr_zero <> IN_PROGRESS.
Proof. repeat split; eauto; discriminate. Qed.

(** ** The priority scorer *)

Lemma count_state_nonneg data deps s : 0 <= count_state data deps s.
Proof. unfold count_state. lia. Qed.

Lemma ref_has_state_disjoint data s s' k :
  s <> s' -> ref_has_state data s k = true -> ref_has_state data s' k = false.
Proof.
  unfold ref_has_state. intros Hne H.
  apply bool_decide_eq_true in H. apply bool_decide_eq_false.
  congruence.
Qed.

Lemma count_state_two data deps s s' :
  s <> s' ->
  count_state data deps s + count_state data deps s' <= Z.of_nat (length deps).
Proof.
  intros Hne. unfold count_state.
  induction deps as [|k deps IH]; simpl; [lia|].
  destruct (ref_has_state data s k) eqn:Hs.
  - rewrite (ref_has_state_disjoint _ _ _ _ Hne Hs). simpl length. lia.
  - destruct (ref_has_state data s' k); simpl length; lia.
Qed.

(** The largest number of dependencies whose key still fits [sys.maxsize]. *)
Lemma sort_key_le_maxsize data self deps :
  dependencies self = Some deps ->
  Z.of_nat (length deps) <= 184467440737095 ->
  dep_counts_sort_key data self <= sys_maxsize.
Proof.
  intros Hd Hlen. unfold dep_counts_sort_key, dep_counts. rewrite Hd.
  pose proof (count_state_two data deps UNPORTED IN_PROGRESS ltac:(discriminate)).
  pose proof (count_state_nonneg data deps UNPORTED).
  pose proof (count_state_nonneg data deps IN_PROGRESS).
  unfold IN_PROGRESS_EQUIV_UNPORTED, sys_maxsize. lia.
Qed.

(** C5. With computed counts [(u, i, p)] the key is [u*10000*5 + i*10000];
    without dependency data the key is [sys.maxsize], and no file whose
    dependencies number at most 184467440737095 (the most that a key below
    [sys.maxsize] allows) has a larger key, so the file sorts last. *)
Theorem dep_counts_sort_key_spec (data : gmap string Mathlib3FileData)
  (self : Mathlib3FileData) :
  (forall u i p, dep_counts data self = Some (u, i, p) ->
     dep_counts_sort_key data self = u * 10000 * 5 + i * 10000) /\
  (dep_counts data self = None ->
     dep_counts_sort_key data self = sys_maxsize /\
     forall other : Mathlib3FileData,
       (forall deps, dependencies other = Some deps ->
                     Z.of_nat (length deps) <= 184467440737095) ->
       dep_counts_sort_key data other <= dep_counts_sort_key data self).
Proof.
  split.
  - intros u i p H. unfold dep_counts_sort_key. rewrite H. reflexivity.
  - intros H. unfold dep_counts_sort_key at 1 3. rewrite H. split; [reflexivity|].
    intros other Hb. destruct (dependencies other) as [deps|] eqn:Hd.
    + eapply sort_key_le_maxsize; eauto.
    + unfold dep_counts_sort_key, dep_counts. rewrite Hd. lia.
Qed.

Lemma dep_counts_sort_key_spec_witness :
  dep_counts_sort_key abc_data file_C = 10000 /\
  dep_counts_sort_key abc_data file_untracked = sys_maxsize /\
  dep_counts_sort_key abc_data file_C <= dep_counts_sort_key abc_data file_untracked.
Proof.
  split; [|split].
  - apply (proj1 (dep_counts_sort_key_spec abc_data file_C) 0 1 1).
    vm_compute. reflexivity.
  - apply (proj2 (dep_counts_sort_key_spec abc_data file_untracked)).
    reflexivity.
  - apply (proj2 (dep_counts_sort_key_spec abc_data file_untracked)).
    + reflexivity.
    + intros deps Hd. simpl in Hd. simplify_eq. simpl. lia.
Defined.

(** C6. With the counts of both files computed, the key does not decrease
    when the unported count grows and the in-progress count is the same, nor
    when the in-progress count grows and the unported count is the same; and
    a file without unported or in-progress dependencies has a key strictly
    below that of a file with at least one of either. *)
Theorem dep_counts_sort_key_monotone (data : gmap string Mathlib3FileData)
  (f g : Mathlib3FileData) (u i p u' i' p' : Z) :
  dep_counts data f = Some (u, i, p) ->
  dep_counts data g = Some (u', i', p') ->
  (i = i' -> u <= u' -> dep_counts_sort_key data f <= dep_counts_sort_key data g) /\
  (u = u' -> i <= i' -> dep_counts_sort_key data f <= dep_counts_sort_key data g) /\
  (u = 0 -> i = 0 -> 1 <= u' \/ 1 <= i' ->
   dep_counts_sort_key data f < dep_counts_sort_key data g).
Proof.
  intros Hf Hg. unfold dep_counts_sort_key. rewrite Hf, Hg.
  unfold dep_counts in Hg. destruct (dependencies g) as [deps|]; [|discriminate].
  simplify_eq.
  pose proof (count_state_nonneg data deps UNPORTED).
  pose proof (count_state_nonneg data deps IN_PROGRESS).
  unfold IN_PROGRESS_EQUIV_UNPORTED. repeat split; intros; lia.
Qed.

Lemma dep_counts_sort_key_monotone_witness :
  dep_counts_sort_key abc_data file_A < dep_counts_sort_key abc_data file_C.
Proof.
  apply (dep_counts_sort_key_monotone abc_data file_A file_C 0 0 0 0 1 1);
    [vm_compute; reflexivity | vm_compute; reflexivity | reflexivity
    | reflexivity | right; lia].
Defined.

(** ** The degraded paths: commits, labels, fences *)

Section VersionControlFacts.
Context {Repo : Type}.
Context (git_Repo : list string -> result Repo).
Context (repo_commit : Repo -> string -> result Commit).

Lemma get_repo_unrecognized (url : string) :
  url <> "leanprover-community/mathlib" ->
  url <> "leanprover-community/mathlib4" ->
  get_repo_by_github_name git_Repo url = Raise KeyError.
Proof.
  intros H3 H4. unfold get_repo_by_github_name.
  apply String.eqb_neq in H3, H4. rewrite H3, H4. reflexivity.
Qed.

Lemma get_repo_returns (url : string) (r : Repo) :
  get_repo_by_github_name git_Repo url = Return r ->
  url = "leanprover-community/mathlib" \/ url = "leanprover-community/mathlib4".
Proof.
  unfold get_repo_by_github_name.
  destruct (String.eqb_spec url "leanprover-community/mathlib"); [auto|].
  destruct (String.eqb_spec url "leanprover-community/mathlib4"); [auto|].
  discriminate.
Qed.

(** C10. A source record in a repository other than the two recognised ones
    is reported as existing; the answer is False only when the repository is
    recognised and resolving the commit in it fails (with [ValueError]). *)
Theorem commit_exists_spec (src : Source) :
  (repo src <> "leanprover-community/mathlib" ->
   repo src <> "leanprover-community/mathlib4" ->
   commit_exists git_Repo repo_commit src = Return true) /\
  (commit_exists git_Repo repo_commit src = Return false ->
   (repo src = "leanprover-community/mathlib" \/
    repo src = "leanprover-community/mathlib4") /\
   exists r, get_repo_by_github_name git_Repo (repo src) = Return r /\
             repo_commit r (commit src) = Raise ValueError).
Proof.
  unfold commit_exists. split.
  - intros H3 H4. rewrite (get_repo_unrecognized _ H3 H4). reflexivity.
  - destruct (get_repo_by_github_name git_Repo (repo src)) as [r|e] eqn:Hr.
    + destruct (repo_commit r (commit src)) as [c|e] eqn:Hc; [discriminate|].
      destruct e; try discriminate. intros _.
      split; [eapply get_repo_returns; eassumption|].
      exists r. split; [reflexivity | exact Hc].
    + destruct e; discriminate.
Qed.

(** C8. For a file with a source reference in the original repository:
    when only the base commit is missing the sync commit stands in for it,
    with a warning exactly for a PORTED file; when only the sync commit is
    missing the base commit stands in for it, with a warning exactly for a
    file that is not UNPORTED; when both are missing the file is skipped,
    silently for an UNPORTED file and with a warning otherwise. *)
Theorem choose_fences_spec (mathlib_repo : Repo) (f_import : string)
  (f_status : Mathlib3FileData) (src : Source) (base sync : option Commit) :
  source (status f_status) = Some src ->
  repo src = "leanprover-community/mathlib" ->
  resolved_fences repo_commit mathlib_repo f_status src = (base, sync) ->
  let out := choose_fences repo_commit mathlib_repo f_import f_status in
  (forall c, base = None -> sync = Some c ->
     out.2 = Proceed c c /\
     (state f_status = PORTED -> out.1 = [NoBaseCommit f_import]) /\
     (state f_status <> PORTED -> out.1 = [])) /\
  (forall c, base = Some c -> sync = None ->
     out.2 = Proceed c c /\
     (state f_status <> UNPORTED -> out.1 = [NoSyncCommit f_import]) /\
     (state f_status = UNPORTED -> out.1 = [])) /\
  (base = None -> sync = None ->
     out.2 = Skipped /\
     (state f_status <> UNPORTED ->
      out.1 = [NoCommitsAtAll f_import (state f_status)]) /\
     (state f_status = UNPORTED -> out.1 = [])).
Proof.
  intros Hsrc Hrepo Hres out. subst out. unfold choose_fences.
  rewrite Hsrc, Hrepo, Hres. simpl.
  repeat split; intros; subst; simpl; try reflexivity;
    case_bool_decide; simpl; congruence.
Qed.
End VersionControlFacts.

Lemma commit_exists_spec_witness :
  commit_exists toy_git_Repo toy_repo_commit
    {| repo := "leanprover/lean"; commit := "aaaa" |} = Return true /\
  toy_repo_commit mathlib_dir "dead" = Raise ValueError.
Proof.
  split.
  - apply (proj1 (commit_exists_spec toy_git_Repo toy_repo_commit
                    {| repo := "leanprover/lean"; commit := "aaaa" |}));
      discriminate.
  - destruct (proj2 (commit_exists_spec toy_git_Repo toy_repo_commit
                       (mathlib_source "dead")) eq_refl) as (_ & r & Hr & Hc).
    injection Hr as <-. exact Hc.
Defined.

Lemma choose_fences_spec_witness :
  choose_fences toy_repo_commit mathlib_dir "A" file_no_base
    = ([NoBaseCommit "A"],
       Proceed {| hexsha := "aaaa" |}
               {| hexsha := "aaaa" |}) /\
  choose_fences toy_repo_commit mathlib_dir "B" file_no_sync
    = ([NoSyncCommit "B"],
       Proceed {| hexsha := "bbbb" |}
               {| hexsha := "bbbb" |}) /\
  choose_fences toy_repo_commit mathlib_dir "C" file_no_fence = ([], Skipped).
Proof.
  split; [|split].
  - destruct (proj1 (choose_fences_spec toy_repo_commit mathlib_dir "A"
                       file_no_base (mathlib_source "aaaa") None
                       (Some {| hexsha := "aaaa" |})
                       eq_refl eq_refl eq_refl) _ eq_refl eq_refl)
      as (H2 & H1 & _).
    specialize (H1 eq_refl).
    destruct (choose_fences _ _ _ _) as [w o]. simpl in *. congruence.
  - destruct (proj1 (proj2 (choose_fences_spec toy_repo_commit mathlib_dir "B"
                       file_no_sync (mathlib_source "dead")
                       (Some {| hexsha := "bbbb" |}) None
                       eq_refl eq_refl eq_refl)) _ eq_refl eq_refl)
      as (H2 & H1 & _).
    specialize (H1 ltac:(discriminate)).
    destruct (choose_fences _ _ _ _) as [w o]. simpl in *. congruence.
  - destruct (proj2 (proj2 (choose_fences_spec toy_repo_commit mathlib_dir "C"
                       file_no_fence (mathlib_source "dead") None None
                       eq_refl eq_refl eq_refl)) eq_refl eq_refl)
      as (H2 & _ & H1).
    specialize (H1 eq_refl).
    destruct (choose_fences _ _ _ _) as [w o]. simpl in *. congruence.
Defined.

(** C9. When the fetch of the labels of a pull request runs out of quota,
    the result is the empty list together with a warning if and only if
    [GITPOD_HOST] is set in the environment; otherwise the exception is
    raised again and no warning is given. *)
Theorem github_labels_rate_limit
  (get_pull_labels : Z -> result (list (string * string)))
  (environ : gmap string string) (text_color_of_color : string -> string)
  (pr : Z) :
  get_pull_labels pr = Raise RateLimitExceededException ->
  (github_labels get_pull_labels environ text_color_of_color pr
     = ([UnableToFetchLabels], Return [])
   <-> is_Some (environ !! "GITPOD_HOST")) /\
  (~ is_Some (environ !! "GITPOD_HOST") ->
   github_labels get_pull_labels environ text_color_of_color pr
     = ([], Raise RateLimitExceededException)).
Proof.
  intros Hf. unfold github_labels. rewrite Hf.
  case_bool_decide as Henv; split.
  - split; [intros _; exact Henv | reflexivity].
  - intros Hn. contradiction.
  - split; [discriminate | intros H; contradiction].
  - reflexivity.
Qed.

Lemma github_labels_rate_limit_witness :
  github_labels exhausted_labels gitpod_environ plain_text_color 42
    = ([UnableToFetchLabels], Return []) /\
  github_labels exhausted_labels ∅ plain_text_color 42
    = ([], Raise RateLimitExceededException).
Proof.
  split.
  - apply (proj1 (github_labels_rate_limit exhausted_labels gitpod_environ
                    plain_text_color 42 eq_refl)).
    vm_compute. eauto.
  - apply (proj2 (github_labels_rate_limit exhausted_labels ∅
                    plain_text_color 42 eq_refl)).
    intros [x Hx]. vm_compute in Hx. discriminate Hx.
Defined.

(** ** Reachability and the search of [nx.descendants] *)

Section Reachability.
Context (g : DiGraph).

Lemma elem_of_successors (u v : string) : v ∈ successors g u <-> edge g u v.
Proof.
  unfold successors, edge. rewrite list_elem_of_fmap. split.
  - intros ([a b] & -> & Hin). apply list_elem_of_filter in Hin as [Hu Hin].
    simpl in *. subst. exact Hin.
  - intros Hin. exists (u, v). split; [reflexivity|].
    apply list_elem_of_filter. split; [reflexivity | exact Hin].
Qed.

Lemma walk_app (u : string) (p q : list string) (x : string) :
  walk g u (p ++ x :: q) -> walk g x q.
Proof.
  revert u. induction p as [|v p IH]; simpl; intros u.
  - intros [_ Hq]. exact Hq.
  - intros [_ Hp]. eauto.
Qed.

Lemma walk_targets (u : string) (p : list string) :
  walk g u p -> p ⊆ (edges g).*2.
Proof.
  revert u. induction p as [|v p IH]; simpl; intros u.
  - intros _ x Hx. inversion Hx.
  - intros [He Hp] x Hx. apply elem_of_cons in Hx as [->|Hx].
    + apply list_elem_of_fmap. exists (u, v). split; [reflexivity | exact He].
    + eapply IH; eauto.
Qed.

Lemma walk_ends_spec (n : nat) (u w : string) :
  w ∈ walk_ends n g u <->
  exists p, walk g u p /\ last p = Some w /\ (length p <= n)%nat.
Proof.
  revert u. induction n as [|n IH]; intros u; simpl.
  - split.
    + intros H. inversion H.
    + intros (p & _ & Hl & Hn). destruct p; simpl in *; [discriminate | lia].
  - rewrite elem_of_app, list_elem_of_bind. split.
    + intros [Hs | (v & Hw & Hs)].
      * exists [w]. simpl. apply elem_of_successors in Hs.
        split; [split; [exact Hs | exact I] | split; [reflexivity | lia]].
      * apply IH in Hw as (p & Hp & Hl & Hn).
        apply elem_of_successors in Hs.
        exists (v :: p).
        split; [split; [exact Hs | exact Hp] | split; [| simpl; lia]].
        destruct p; [discriminate | exact Hl].
    + intros (p & Hp & Hl & Hn). destruct p as [|v p]; [discriminate|].
      simpl in Hp. destruct Hp as [He Hp]. apply elem_of_successors in He.
      destruct p as [|v' p].
      * left. simpl in Hl. congruence.
      * right. exists v. split; [|exact He]. apply IH.
        exists (v' :: p).
        split; [exact Hp | split; [exact Hl | simpl in *; lia]].
Qed.

Lemma reaches_walk (u w : string) :
  reaches g u w <-> exists p, walk g u p /\ last p = Some w.
Proof.
  split.
  - induction 1 as [x y He | x y z He _ (p & Hp & Hl)].
    + exists [y]. simpl. auto.
    + exists (y :: p). split; [split; [exact He | exact Hp] |].
      destruct p; [discriminate | exact Hl].
  - intros (p & Hp & Hl). revert u Hp Hl.
    induction p as [|v p IH]; intros u Hp Hl; [discriminate|].
    destruct Hp as [He Hp]. destruct p as [|v' p].
    + simpl in Hl. injection Hl as ->. apply tc_once. exact He.
    + eapply tc_l; [exact He|]. apply IH; [exact Hp | exact Hl].
Qed.

(** A walk can be cut down to one that visits no node twice. *)
Lemma walk_cut_loops (u w : string) (p : list string) :
  walk g u p -> last p = Some w ->
  exists p', walk g u p' /\ last p' = Some w /\ NoDup p'.
Proof.
  revert u. induction p as [|v p IH]; intros u Hp Hl; [discriminate|].
  destruct Hp as [He Hp]. destruct p as [|v' p].
  - exists [v]. split; [split; [exact He | exact I] |].
    split; [exact Hl | apply NoDup_singleton].
  - destruct (IH v Hp Hl) as (q & Hq & Hlq & Hnd).
    destruct (decide (v ∈ q)) as [Hin | Hnin].
    + apply list_elem_of_split in Hin as (q1 & q2 & ->).
      pose proof (walk_app _ _ _ _ Hq) as Hq2.
      apply NoDup_app in Hnd as (_ & _ & Hnd).
      destruct q2 as [|x q2].
      * exists [v]. rewrite last_snoc in Hlq.
        split; [split; [exact He | exact I] |].
        split; [exact Hlq | apply NoDup_singleton].
      * exists (v :: x :: q2). split; [split; [exact He | exact Hq2] |].
        split; [| exact Hnd].
        rewrite last_app_cons in Hlq. exact Hlq.
    + exists (v :: q). split; [split; [exact He | exact Hq] |]. split.
      * destruct q; [discriminate | exact Hlq].
      * apply NoDup_cons. split; [exact Hnin | exact Hnd].
Qed.

Lemma walk_ends_reaches (n : nat) (u w : string) :
  w ∈ walk_ends n g u -> reaches g u w.
Proof.
  intros H. apply walk_ends_spec in H as (p & Hp & Hl & _).
  apply reaches_walk. eauto.
Qed.

(** The bound of the search is enough: it finds every node that is reached. *)
Lemma reaches_walk_ends (u w : string) :
  reaches g u w <-> w ∈ walk_ends (length (edges g)) g u.
Proof.
  split; [|apply walk_ends_reaches].
  intros H. apply reaches_walk in H as (p & Hp & Hl).
  destruct (walk_cut_loops _ _ _ Hp Hl) as (q & Hq & Hlq & Hnd).
  apply walk_ends_spec. exists q. split; [exact Hq | split; [exact Hlq |]].
  pose proof (walk_targets _ _ Hq) as Hsub.
  apply (NoDup_submseteq _ _ Hnd) in Hsub.
  apply submseteq_length in Hsub. rewrite length_fmap in Hsub. exact Hsub.
Qed.

Lemma elem_of_descendants (u w : string) :
  w ∈ descendants g u <-> w <> u /\ reaches g u w.
Proof.
  unfold descendants. rewrite elem_of_remove_dups, list_elem_of_filter.
  rewrite <- reaches_walk_ends. reflexivity.
Qed.

Lemma NoDup_descendants (u : string) : NoDup (descendants g u).
Proof. apply NoDup_remove_dups. Qed.

Lemma reaches_source (u w : string) : reaches g u w -> u ∈ (edges g).*1.
Proof.
  intros H. assert (exists v, edge g u v) as [v Hv] by (destruct H; eauto).
  apply list_elem_of_fmap. exists (u, v). split; [reflexivity | exact Hv].
Qed.

Lemma is_directed_acyclic_graph_spec :
  is_directed_acyclic_graph g = true <-> acyclic g.
Proof.
  unfold is_directed_acyclic_graph, acyclic. rewrite forallb_forall. split.
  - intros H u Hr. pose proof (reaches_source _ _ Hr) as Hs.
    apply list_elem_of_In in Hs. apply H in Hs.
    apply bool_decide_eq_true in Hs. apply Hs, reaches_walk_ends. exact Hr.
  - intros H u _. apply bool_decide_eq_true. intros Hw.
    apply (H u), reaches_walk_ends. exact Hw.
Qed.
End Reachability.

Lemma edge_reverse_graph (g : DiGraph) (u v : string) :
  edge (reverse_graph g) u v <-> edge g v u.
Proof.
  unfold edge, reverse_graph. simpl. rewrite list_elem_of_fmap. split.
  - intros ([a b] & Heq & Hin). simpl in Heq. congruence.
  - intros Hin. exists (v, u). split; [reflexivity | exact Hin].
Qed.

Lemma reaches_reverse_graph (g : DiGraph) (u v : string) :
  reaches (reverse_graph g) u v <-> reaches g v u.
Proof.
  assert (forall g1 g2, (forall a b, edge g1 a b -> edge g2 b a) ->
            forall a b, reaches g1 a b -> reaches g2 b a) as Hflip.
  { intros g1 g2 He a b. induction 1 as [x y H | x y z H _ IH].
    - apply tc_once, He, H.
    - eapply tc_r; [exact IH | apply He, H]. }
  split; apply Hflip; intros a b; apply edge_reverse_graph.
Qed.

Lemma elem_of_ancestors (g : DiGraph) (u w : string) :
  w ∈ ancestors g u <-> w <> u /\ reaches g w u.
Proof.
  unfold ancestors. rewrite elem_of_descendants, reaches_reverse_graph.
  reflexivity.
Qed.

Lemma acyclic_reverse_graph (g : DiGraph) :
  acyclic g -> acyclic (reverse_graph g).
Proof. intros H u Hr. apply (H u), reaches_reverse_graph, Hr. Qed.

Lemma reaches_subgraph (g g' : DiGraph) (u v : string) :
  (forall a b, edge g a b -> edge g' a b) -> reaches g u v -> reaches g' u v.
Proof.
  intros He. induction 1 as [x y H | x y z H _ IH].
  - apply tc_once, He, H.
  - eapply tc_l; [apply He, H | exact IH].
Qed.

(** ** Acyclic graphs: the descendants as a measure *)

Section Acyclic.
Context (g : DiGraph).
Hypothesis Hacyclic : acyclic g.

Lemma reaches_neq (u v : string) : reaches g u v -> v <> u.
Proof. intros H ->. exact (Hacyclic _ H). Qed.

Lemma descendants_acyclic (u w : string) :
  w ∈ descendants g u <-> reaches g u w.
Proof.
  rewrite elem_of_descendants. split; [tauto|].
  intros H. split; [apply reaches_neq, H | exact H].
Qed.

(** A node that is reached has strictly fewer descendants. *)
Lemma descendants_shrink (u v : string) :
  reaches g u v ->
  (length (descendants g v) < length (descendants g u))%nat.
Proof.
  intros Huv.
  assert (NoDup (v :: descendants g v)) as Hnd.
  { apply NoDup_cons. split; [|apply NoDup_descendants].
    rewrite elem_of_descendants. tauto. }
  assert (v :: descendants g v ⊆ descendants g u) as Hsub.
  { intros x Hx. apply descendants_acyclic.
    apply elem_of_cons in Hx as [-> | Hx]; [exact Huv|].
    apply descendants_acyclic in Hx. eapply tc_transitive; eauto. }
  apply (NoDup_submseteq _ _ Hnd) in Hsub.
  apply submseteq_length in Hsub. simpl in Hsub. lia.
Qed.

Lemma reached_by_some (vs : list string) (w : string) :
  (exists v, v ∈ vs /\ reaches g v w) \/ (forall v, v ∈ vs -> ~ reaches g v w).
Proof.
  induction vs as [|v vs [(x & Hx & Hr) | Hno]].
  - right. intros v Hv. inversion Hv.
  - left. exists x. split; [right; exact Hx | exact Hr].
  - destruct (decide (w ∈ walk_ends (length (edges g)) g v)) as [Hw | Hw].
    + left. exists v. split; [left | apply reaches_walk_ends, Hw].
    + right. intros x Hx. apply elem_of_cons in Hx as [-> | Hx].
      * intros Hr. apply Hw, reaches_walk_ends, Hr.
      * apply Hno, Hx.
Qed.

(** The loop over the successors: a successor that has already been removed
    from [u_nbrs] is skipped, and skipping it loses nothing, since what it
    reaches is reached from the successor that removed it. *)
Lemma reduce_nbrs_inv (succs vs seen nbrs : list string) :
  (forall v : string, v ∈ vs -> v ∈ succs) ->
  (forall w : string,
     w ∈ nbrs <-> w ∈ succs /\ forall v : string, v ∈ seen -> ~ reaches g v w) ->
  forall w : string,
    w ∈ reduce_nbrs g vs nbrs <->
    w ∈ succs /\ forall v : string, v ∈ (seen ++ vs)%list -> ~ reaches g v w.
Proof.
  revert seen nbrs. induction vs as [|v vs IH]; intros seen nbrs Hvs Hinv w.
  - simpl. rewrite app_nil_r. apply Hinv.
  - unfold reduce_nbrs. simpl. fold (reduce_nbrs g vs).
    rewrite cons_middle, app_assoc. apply IH.
    + intros x Hx. apply Hvs. right. exact Hx.
    + clear w. intros w. destruct (decide (v ∈ nbrs)) as [Hin | Hnin].
      * rewrite list_elem_of_filter, Hinv, descendants_acyclic. split.
        -- intros (Hn & Hs & Hseen). split; [exact Hs|]. intros x Hx.
           apply elem_of_app in Hx as [Hx | Hx]; [apply Hseen, Hx|].
           apply list_elem_of_singleton in Hx as ->. exact Hn.
        -- intros (Hs & Hseen). split; [|split; [exact Hs|]].
           ++ apply Hseen. apply elem_of_app. right. left.
           ++ intros x Hx. apply Hseen. apply elem_of_app. left. exact Hx.
      * rewrite Hinv. split.
        -- intros (Hs & Hseen). split; [exact Hs|]. intros x Hx.
           apply elem_of_app in Hx as [Hx | Hx]; [apply Hseen, Hx|].
           apply list_elem_of_singleton in Hx as ->. intros Hvw.
           destruct (reached_by_some seen v) as [(y & Hy & Hyv) | Hno].
           ++ apply (Hseen y Hy). eapply tc_transitive; eauto.
           ++ apply Hnin, Hinv. split; [apply Hvs; left | exact Hno].
        -- intros (Hs & Hseen). split; [exact Hs|].
           intros x Hx. apply Hseen. apply elem_of_app. left. exact Hx.
Qed.

(** What is left of the successors of [u]: those that no other successor
    reaches. *)
Lemma reduce_nbrs_successors (u w : string) :
  w ∈ reduce_nbrs g (successors g u) (successors g u) <->
  edge g u w /\ forall v, edge g u v -> ~ reaches g v w.
Proof.
  rewrite (reduce_nbrs_inv (successors g u) (successors g u) [] (successors g u)).
  - rewrite elem_of_successors. simpl.
    split; intros [He H]; (split; [exact He|]); intros v Hv;
      apply H, elem_of_successors, Hv.
  - auto.
  - intros x. split; [|tauto]. intros Hx. split; [exact Hx|].
    intros v Hv. inversion Hv.
Qed.
End Acyclic.

(** ** The transitive reduction *)

Section Reduction.
Context (g tr : DiGraph).
Hypothesis Hwf : wf_graph g.
Hypothesis Hacyclic : acyclic g.
Hypothesis Htr : transitive_reduction g = Return tr.

Lemma reduction_edge (u w : string) :
  edge tr u w <-> edge g u w /\ forall v, edge g u v -> ~ reaches g v w.
Proof.
  unfold transitive_reduction in Htr.
  destruct (is_directed_acyclic_graph g); [|discriminate].
  injection Htr as <-. unfold edge at 1. simpl.
  rewrite list_elem_of_bind. split.
  - intros (x & Hin & _). apply list_elem_of_fmap in Hin as (y & Heq & Hy).
    injection Heq as -> ->. apply reduce_nbrs_successors; assumption.
  - intros H. exists u. split.
    + apply list_elem_of_fmap. exists w. split; [reflexivity|].
      apply reduce_nbrs_successors; assumption.
    + destruct H as [He _]. apply (Hwf _ _ He).
Qed.

Lemma reduction_nodes : nodes tr = nodes g.
Proof.
  unfold transitive_reduction in Htr.
  destruct (is_directed_acyclic_graph g); [|discriminate].
  injection Htr as <-. reflexivity.
Qed.

Lemma reduction_reaches_sound (u w : string) : reaches tr u w -> reaches g u w.
Proof. apply reaches_subgraph. intros a b H. apply reduction_edge, H. Qed.

(** An edge of [g] is kept, or replaced by a walk in the reduction. The
    induction is on the number of descendants of the source, then on the
    number of ancestors of the target. *)
Lemma reduction_reaches_complete_aux (k : nat) :
  forall u, (length (descendants g u) < k)%nat ->
  forall w, reaches g u w -> reaches tr u w.
Proof.
  induction k as [|k IHk]; intros u Hk; [lia|].
  assert (forall v, reaches g u v -> forall w, reaches g v w -> reaches tr v w)
    as Hbelow.
  { intros v Huv. apply IHk.
    pose proof (descendants_shrink g Hacyclic u v Huv). lia. }
  assert (forall j v, (length (ancestors g v) < j)%nat ->
                      edge g u v -> reaches tr u v) as Hedge.
  { induction j as [|j IHj]; intros v Hj He; [lia|].
    destruct (reached_by_some g (successors g u) v) as [(x & Hx & Hxv) | Hno].
    - apply elem_of_successors in Hx.
      eapply tc_transitive; [|apply (Hbelow x); [apply tc_once, Hx | exact Hxv]].
      apply IHj; [|exact Hx].
      pose proof (descendants_shrink (reverse_graph g)
                    (acyclic_reverse_graph g Hacyclic) v x) as Hlt.
      unfold ancestors. apply reaches_reverse_graph in Hxv.
      specialize (Hlt Hxv). unfold ancestors in Hj. lia.
    - apply tc_once, reduction_edge. split; [exact He|].
      intros x Hx. apply Hno, elem_of_successors, Hx. }
  intros w Huw. inversion Huw as [a b He | a v b He Hvw]; subst.
  - eapply Hedge; [|exact He]. apply Nat.lt_succ_diag_r.
  - eapply tc_transitive.
    + eapply Hedge; [|exact He]. apply Nat.lt_succ_diag_r.
    + apply (Hbelow v); [apply tc_once, He | exact Hvw].
Qed.

Lemma reduction_reaches (u w : string) : reaches tr u w <-> reaches g u w.
Proof.
  split; [apply reduction_reaches_sound|].
  apply (reduction_reaches_complete_aux (S (length (descendants g u)))). lia.
Qed.

(** Without one of its edges the reduction no longer connects the ends of
    that edge. *)
Lemma reduction_minimal (u w : string) :
  edge tr u w -> ~ reaches (remove_edge (u, w) tr) u w.
Proof.
  intros He Hr. apply reduction_edge in He as [_ Hno].
  assert (forall a b, edge (remove_edge (u, w) tr) a b ->
                      edge g a b /\ (a, b) <> (u, w)) as Hsub.
  { intros a b H. unfold edge, remove_edge in H. simpl in H.
    apply list_elem_of_filter in H as [Hne H].
    split; [apply reduction_edge, H | exact Hne]. }
  inversion Hr as [a b H | a v b H Hvw]; subst.
  - apply Hsub in H as [_ Hne]. congruence.
  - apply Hsub in H as [Huv _]. apply (Hno v Huv).
    eapply reaches_subgraph; [|exact Hvw]. intros a b Hab. apply Hsub, Hab.
Qed.
End Reduction.

Lemma transitive_reduction_returns (g : DiGraph) :
  acyclic g -> exists tr, transitive_reduction g = Return tr.
Proof.
  intros H. apply is_directed_acyclic_graph_spec in H.
  unfold transitive_reduction. rewrite H. eauto.
Qed.

Lemma transitive_reduction_raises (g : DiGraph) :
  ~ acyclic g -> transitive_reduction g = Raise NetworkXError.
Proof.
  intros H. unfold transitive_reduction.
  destruct (is_directed_acyclic_graph g) eqn:Hd; [|reflexivity].
  apply is_directed_acyclic_graph_spec in Hd. contradiction.
Qed.

(** ** The builder: how the graph grows *)

#[local] Instance graph_le_preorder : PreOrder graph_le.
Proof.
  split.
  - intros g. split; reflexivity.
  - intros g1 g2 g3 [Hn1 He1] [Hn2 He2]. split; etrans; eauto.
Qed.

Lemma add_node_le (n : string) (g : DiGraph) : graph_le g (add_node n g).
Proof.
  unfold add_node. destruct (decide (n ∈ nodes g)); [reflexivity|].
  split; simpl; [|reflexivity]. intros x Hx. apply elem_of_app. left. exact Hx.
Qed.

Lemma add_node_in (n : string) (g : DiGraph) : n ∈ nodes (add_node n g).
Proof.
  unfold add_node. destruct (decide (n ∈ nodes g)) as [H|H]; [exact H|].
  simpl. apply elem_of_app. right. left.
Qed.

Lemma add_node_edges (n : string) (g : DiGraph) : edges (add_node n g) = edges g.
Proof. unfold add_node. destruct (decide (n ∈ nodes g)); reflexivity. Qed.

Lemma add_node_nodes (n x : string) (g : DiGraph) :
  x ∈ nodes (add_node n g) <-> x = n \/ x ∈ nodes g.
Proof.
  unfold add_node. destruct (decide (n ∈ nodes g)) as [H|H]; simpl.
  - split; [auto|]. intros [-> | Hx]; assumption.
  - rewrite elem_of_app, list_elem_of_singleton. tauto.
Qed.

Lemma add_edge_edges (u v : string) (g : DiGraph) (e : string * string) :
  e ∈ edges (add_edge u v g) <-> e = (u, v) \/ e ∈ edges g.
Proof.
  unfold add_edge. cbv zeta.
  destruct (decide ((u, v) ∈ edges (add_node v (add_node u g)))) as [H|H];
    simpl; rewrite ?elem_of_app, ?list_elem_of_singleton;
    rewrite !add_node_edges in *; [|tauto].
  split; [auto|]. intros [-> | He]; assumption.
Qed.

Lemma add_edge_nodes (u v x : string) (g : DiGraph) :
  x ∈ nodes (add_edge u v g) <-> x = u \/ x = v \/ x ∈ nodes g.
Proof.
  unfold add_edge. cbv zeta.
  destruct (decide ((u, v) ∈ edges (add_node v (add_node u g)))); simpl;
    rewrite !add_node_nodes; tauto.
Qed.

Lemma add_edge_le (u v : string) (g : DiGraph) : graph_le g (add_edge u v g).
Proof.
  split; intros x Hx; [apply add_edge_nodes | apply add_edge_edges]; auto.
Qed.

Lemma add_node_wf (n : string) (g : DiGraph) : wf_graph g -> wf_graph (add_node n g).
Proof.
  intros Hwf u v He. unfold edge in He. rewrite add_node_edges in He.
  rewrite !add_node_nodes. destruct (Hwf u v He). auto.
Qed.

Lemma add_edge_wf (a b : string) (g : DiGraph) :
  wf_graph g -> wf_graph (add_edge a b g).
Proof.
  intros Hwf u v He. apply add_edge_edges in He. rewrite !add_edge_nodes.
  destruct He as [He | He].
  - injection He as -> ->. auto.
  - destruct (Hwf u v He). auto.
Qed.

Lemma scan_line_le (label : string) (g : DiGraph) (line : string) :
  graph_le g (scan_line label g line).
Proof.
  unfold scan_line. destruct (import_re_match line) as [imported|]; [|reflexivity].
  destruct (ignored_import imported); [reflexivity | apply add_edge_le].
Qed.

Lemma scan_line_wf (label : string) (g : DiGraph) (line : string) :
  wf_graph g -> wf_graph (scan_line label g line).
Proof.
  intros H. unfold scan_line. destruct (import_re_match line) as [imported|]; [|exact H].
  destruct (ignored_import imported); [exact H | apply add_edge_wf, H].
Qed.

(** Loops whose body only lets the accumulator grow. *)
Section Loops.
Context {A B : Type} (le : relation A) `{!PreOrder le}.

Lemma foldl_grows (f : A -> B -> A) :
  (forall a x, le a (f a x)) -> forall l a, le a (foldl f a l).
Proof.
  intros Hf l. induction l as [|x l IH]; intros a; simpl; [reflexivity|].
  etrans; [apply Hf | apply IH].
Qed.

Lemma foldl_visits (f : A -> B -> A) :
  (forall a x, le a (f a x)) ->
  forall l a x, x ∈ l -> exists a', le a a' /\ le (f a' x) (foldl f a l).
Proof.
  intros Hf l. induction l as [|y l IH]; intros a x Hx; [inversion Hx|].
  apply elem_of_cons in Hx as [-> | Hx]; simpl.
  - exists a. split; [reflexivity | apply foldl_grows, Hf].
  - destruct (IH (f a y) x Hx) as (a' & Hle & Hle').
    exists a'. split; [etrans; [apply Hf | exact Hle] | exact Hle'].
Qed.

Lemma foldl_invariant (P : A -> Prop) (f : A -> B -> A) (l : list B) :
  (forall a x, x ∈ l -> P a -> P (f a x)) -> forall a, P a -> P (foldl f a l).
Proof.
  induction l as [|y l IH]; intros Hf a Ha; simpl; [exact Ha|].
  apply IH.
  - intros a' x Hx. apply Hf. right. exact Hx.
  - apply Hf; [left | exact Ha].
Qed.

Lemma foldlM_grows (body : A -> B -> result A) :
  (forall a x a', body a x = Return a' -> le a a') ->
  forall l a r, foldlM body a l = Return r -> le a r.
Proof.
  intros Hb l. induction l as [|x l IH]; intros a r Hr; simpl in Hr.
  - injection Hr as <-. reflexivity.
  - destruct (body a x) as [a'|e] eqn:Ha; [|discriminate].
    etrans; [eapply Hb; exact Ha | eapply IH; exact Hr].
Qed.

Lemma foldlM_visits (body : A -> B -> result A) :
  (forall a x a', body a x = Return a' -> le a a') ->
  forall l a r x, foldlM body a l = Return r -> x ∈ l ->
  exists a' a'', le a a' /\ body a' x = Return a'' /\ le a'' r.
Proof.
  intros Hb l. induction l as [|y l IH]; intros a r x Hr Hx; [inversion Hx|].
  simpl in Hr. destruct (body a y) as [a1|e] eqn:Ha; [|discriminate].
  apply elem_of_cons in Hx as [-> | Hx].
  - exists a, a1. split; [reflexivity|]. split; [exact Ha|].
    eapply foldlM_grows; eauto.
  - destruct (IH a1 r x Hr Hx) as (a' & a'' & Hle & Hbody & Hle').
    exists a', a''. split; [|auto]. etrans; [eapply Hb; exact Ha | exact Hle].
Qed.

Lemma foldlM_invariant (P : A -> Prop) (body : A -> B -> result A) (l : list B) :
  (forall a x a', x ∈ l -> P a -> body a x = Return a' -> P a') ->
  forall a r, P a -> foldlM body a l = Return r -> P r.
Proof.
  induction l as [|y l IH]; intros Hb a r Ha Hr; simpl in Hr.
  - injection Hr as <-. exact Ha.
  - destruct (body a y) as [a1|e] eqn:Hy; [|discriminate].
    apply (IH (fun a0 x a' Hx => Hb a0 x a' (list_elem_of_further _ _ _ Hx)) a1 r);
      [|exact Hr].
    eapply Hb; [left | exact Ha | exact Hy].
Qed.
End Loops.

Lemma add_file_node_le (root_path : list string) (g : DiGraph) (f : SourceFile)
  (g' : DiGraph) :
  add_file_node root_path g f = Return g' -> graph_le g g'.
Proof.
  unfold add_file_node. destruct (in_excluded_category root_path f) as [[]|]; simpl;
    intros H; try discriminate; injection H as <-; [reflexivity | apply add_node_le].
Qed.

(** What one round of the second loop returns: the graph as it was for an
    excluded file, and otherwise the graph with the lines of the text of the
    file scanned, the file having been read. *)
Lemma scan_file_return (root_path : list string) (g : DiGraph) (f : SourceFile)
  (g' : DiGraph) :
  scan_file root_path g f = Return g' ->
  (in_excluded_category root_path f = Return true /\ g' = g) \/
  (in_excluded_category root_path f = Return false /\
   read_text f = Return (text f) /\
   g' = foldl (scan_line (mk_label f)) g (split_lines (text f))).
Proof.
  unfold scan_file, text.
  destruct (in_excluded_category root_path f) as [[]|]; simpl;
    [intros H; injection H as <-; auto | | discriminate].
  destruct (read_text f) as [t|e]; simpl; [|discriminate].
  intros H. injection H as <-. auto.
Qed.

Lemma scan_file_le (root_path : list string) (g : DiGraph) (f : SourceFile)
  (g' : DiGraph) :
  scan_file root_path g f = Return g' -> graph_le g g'.
Proof.
  intros H. apply scan_file_return in H as [[_ ->] | (_ & _ & ->)]; [reflexivity|].
  apply (foldl_grows graph_le). apply scan_line_le.
Qed.

(** After the first loop every file that is not excluded has its node. *)
Lemma first_pass_nodes (root_path : list string) (files : list SourceFile)
  (g : DiGraph) (f : SourceFile) :
  foldlM (add_file_node root_path) empty_graph files = Return g ->
  f ∈ files -> in_excluded_category root_path f = Return false ->
  mk_label f ∈ nodes g.
Proof.
  intros Hg Hf Hex.
  destruct (foldlM_visits graph_le _ (add_file_node_le root_path) _ _ _ _ Hg Hf)
    as (a' & a'' & _ & Hbody & [Hle _]).
  apply Hle. unfold add_file_node in Hbody. rewrite Hex in Hbody. simpl in Hbody.
  injection Hbody as <-. apply add_node_in.
Qed.

Lemma parse_imports_wf (root_path : list string) (tree : list SourceFile)
  (g : DiGraph) :
  parse_imports root_path tree = Return g -> wf_graph g.
Proof.
  unfold parse_imports.
  destruct (foldlM (add_file_node root_path) empty_graph (glob_lean tree))
    as [g1|e] eqn:H1; simpl; [|discriminate].
  intros H2. eapply (foldlM_invariant wf_graph); [| |exact H2].
  - intros a f a' _ Ha Hs. apply scan_file_return in Hs as [[Hex ->] | (Hex & Hrd & ->)];
      [exact Ha|].
    apply foldl_invariant; [|exact Ha]. intros; apply scan_line_wf; assumption.
  - eapply (foldlM_invariant wf_graph); [| |exact H1].
    + intros a f a' _ Ha Hs. unfold add_file_node in Hs.
      destruct (in_excluded_category root_path f) as [[]|]; simpl in Hs;
        try discriminate; injection Hs as <-; [exact Ha | apply add_node_wf, Ha].
    + intros u v He. inversion He.
Qed.

Lemma resolve_import_cases (g : DiGraph) (imported : string) :
  (imported ∈ nodes g -> resolve_import g imported = imported) /\
  (imported ∉ nodes g -> imported +:+ ".default" ∈ nodes g ->
   resolve_import g imported = imported +:+ ".default") /\
  (imported ∉ nodes g -> imported +:+ ".default" ∉ nodes g ->
   resolve_import g imported = "lean_core." +:+ imported).
Proof.
  unfold resolve_import. repeat split; intros;
    repeat case_decide; try reflexivity; contradiction.
Qed.

Lemma scan_line_edge (label : string) (g : DiGraph) (line imported : string) :
  import_re_match line = Some imported -> ignored_import imported = false ->
  forall e, e ∈ edges (scan_line label g line) <->
            e = (resolve_import g imported, label) \/ e ∈ edges g.
Proof.
  intros Hm Hi e. unfold scan_line. rewrite Hm, Hi. apply add_edge_edges.
Qed.

Lemma is_scanned_eq (root_path : list string) (f : SourceFile) (skip : bool) :
  in_excluded_category root_path f = Return skip ->
  is_scanned root_path f = negb skip.
Proof. unfold is_scanned. intros ->. destruct skip; reflexivity. Qed.

(** The two loops of [parse_imports] as folds over the files that are not
    skipped and over their lines. *)
Lemma first_pass_steps (root_path : list string) :
  forall (files : list SourceFile) (g g1 : DiGraph),
    foldlM (add_file_node root_path) g files = Return g1 ->
    g1 = foldl (fun g f => add_node (mk_label f) g) g
               (List.filter (is_scanned root_path) files).
Proof.
  induction files as [|f files IH]; intros g g1 H; simpl in H.
  - injection H as <-. reflexivity.
  - destruct (add_file_node root_path g f) as [g'|e] eqn:Hs; simpl in H;
      [|discriminate].
    apply IH in H as ->. unfold add_file_node in Hs. simpl.
    destruct (in_excluded_category root_path f) as [[]|e] eqn:Hex; simpl in Hs;
      [| |discriminate]; injection Hs as <-;
      rewrite (is_scanned_eq _ _ _ Hex); reflexivity.
Qed.

Lemma foldl_file_steps (f : SourceFile) (g : DiGraph) :
  foldl scan_step g (file_steps f)
  = foldl (scan_line (mk_label f)) g (split_lines (text f)).
Proof.
  unfold file_steps. revert g.
  induction (split_lines (text f)) as [|line l IH]; intros g; simpl;
    [reflexivity | apply IH].
Qed.

Lemma second_pass_steps (root_path : list string) :
  forall (files : list SourceFile) (g G : DiGraph),
    foldlM (scan_file root_path) g files = Return G ->
    G = foldl scan_step g
              (List.filter (is_scanned root_path) files ≫= file_steps) /\
    forall f, f ∈ files -> in_excluded_category root_path f = Return false ->
              read_text f = Return (text f).
Proof.
  induction files as [|f files IH]; intros g G H; simpl in H.
  - injection H as <-. split; [reflexivity|]. intros f Hf. inversion Hf.
  - destruct (scan_file root_path g f) as [g'|e] eqn:Hs; simpl in H;
      [|discriminate].
    destruct (IH _ _ H) as [-> Hread].
    apply scan_file_return in Hs as [[Hex ->] | (Hex & Hrd & ->)].
    + simpl. rewrite (is_scanned_eq _ _ _ Hex). split; [reflexivity|].
      intros f' Hf' Hex'. apply elem_of_cons in Hf' as [-> | Hf'];
        [congruence | auto].
    + simpl. rewrite (is_scanned_eq _ _ _ Hex). simpl.
      rewrite foldl_app, foldl_file_steps. split; [reflexivity|].
      intros f' Hf' Hex'. apply elem_of_cons in Hf' as [-> | Hf']; auto.
Qed.

Lemma elem_of_scanned_files (root_path : list string) (tree : list SourceFile)
  (f : SourceFile) :
  f ∈ scanned_files root_path tree <->
  f ∈ glob_lean tree /\ in_excluded_category root_path f = Return false.
Proof.
  unfold scanned_files, is_scanned. rewrite !list_elem_of_In, filter_In.
  destruct (in_excluded_category root_path f) as [[]|e];
    split; intros [? ?]; split; auto; discriminate.
Qed.

Lemma elem_of_scan_steps (root_path : list string) (tree : list SourceFile)
  (label line : string) :
  (label, line) ∈ scan_steps root_path tree <->
  exists f, f ∈ glob_lean tree /\
            in_excluded_category root_path f = Return false /\
            label = mk_label f /\ line ∈ split_lines (text f).
Proof.
  unfold scan_steps, file_steps. rewrite list_elem_of_bind. split.
  - intros (f & Hs & Hf). apply elem_of_scanned_files in Hf as [Hf Hex].
    apply list_elem_of_fmap in Hs as (line' & Heq & Hline).
    injection Heq as -> ->. eauto.
  - intros (f & Hf & Hex & -> & Hline). exists f.
    split; [|apply elem_of_scanned_files; auto].
    apply list_elem_of_fmap. eauto.
Qed.

Lemma first_pass_graph_spec (fs : list SourceFile) :
  forall g : DiGraph,
    edges (foldl (fun g f => add_node (mk_label f) g) g fs) = edges g /\
    forall n, n ∈ nodes (foldl (fun g f => add_node (mk_label f) g) g fs) <->
              n ∈ nodes g \/ exists f, f ∈ fs /\ n = mk_label f.
Proof.
  induction fs as [|f fs IH]; intros g; simpl.
  - split; [reflexivity|]. intros n. split; [auto|].
    intros [? | (f & Hf & _)]; [assumption | inversion Hf].
  - destruct (IH (add_node (mk_label f) g)) as [IHe IHn]. split.
    + rewrite IHe. apply add_node_edges.
    + intros n. rewrite IHn, add_node_nodes. split.
      * intros [[-> | Hn] | (f' & Hf' & ->)].
        -- right. exists f. split; [left | reflexivity].
        -- left. exact Hn.
        -- right. exists f'. split; [right; exact Hf' | reflexivity].
      * intros [Hn | (f' & Hf' & ->)]; [left; right; exact Hn|].
        apply elem_of_cons in Hf' as [-> | Hf'];
          [left; left; reflexivity | right; eauto].
Qed.

(** The graph along a run of the inner loop from [g0] over the lines [l]. *)
Lemma trace_step (g0 : DiGraph) (l : list (string * string)) (i : nat)
  (s : string * string) :
  l !! i = Some s ->
  foldl scan_step g0 (take (S i) l) = scan_step (foldl scan_step g0 (take i l)) s.
Proof.
  intros Hs. rewrite (take_S_r _ _ _ Hs), foldl_app. reflexivity.
Qed.

Lemma trace_end (g0 : DiGraph) (l : list (string * string)) (i : nat) :
  l !! i = None ->
  foldl scan_step g0 (take (S i) l) = foldl scan_step g0 (take i l).
Proof.
  intros Hn. apply lookup_ge_None in Hn. rewrite !take_ge by lia. reflexivity.
Qed.

Lemma trace_edges (g0 : DiGraph) (l : list (string * string)) :
  edges g0 = [] ->
  forall (i : nat) (u v : string),
    (u, v) ∈ edges (foldl scan_step g0 (take i l)) <->
    exists j line imported,
      (j < i)%nat /\ l !! j = Some (v, line) /\
      import_re_match line = Some imported /\ ignored_import imported = false /\
      u = resolve_import (foldl scan_step g0 (take j l)) imported.
Proof.
  intros Hnil. induction i as [|i IH]; intros u v.
  - rewrite take_0. simpl. rewrite Hnil. split.
    + intros H. inversion H.
    + intros (j & _ & _ & Hj & _). lia.
  - destruct (l !! i) as [[label line]|] eqn:Hi.
    + rewrite (trace_step _ _ _ _ Hi). unfold scan_step at 1. simpl.
      unfold scan_line.
      destruct (import_re_match line) as [imported|] eqn:Hm;
        [destruct (ignored_import imported) eqn:Hig|].
      * rewrite IH. split.
        -- intros (j & ln & im & Hj & Hrest). exists j, ln, im.
           split; [lia | exact Hrest].
        -- intros (j & ln & im & Hj & Hl & Hm' & Hig' & Hu).
           destruct (decide (j = i)) as [-> | Hne].
           ++ rewrite Hi in Hl. injection Hl as -> ->. congruence.
           ++ exists j, ln, im. split; [lia | auto].
      * rewrite add_edge_edges, IH. split.
        -- intros [Heq | (j & ln & im & Hj & Hrest)].
           ++ injection Heq as -> ->. exists i, line, imported.
              split; [lia | auto].
           ++ exists j, ln, im. split; [lia | exact Hrest].
        -- intros (j & ln & im & Hj & Hl & Hm' & Hig' & Hu).
           destruct (decide (j = i)) as [-> | Hne].
           ++ rewrite Hi in Hl. injection Hl as -> ->.
              rewrite Hm in Hm'. injection Hm' as ->. left. rewrite Hu.
              reflexivity.
           ++ right. exists j, ln, im. split; [lia | auto].
      * rewrite IH. split.
        -- intros (j & ln & im & Hj & Hrest). exists j, ln, im.
           split; [lia | exact Hrest].
        -- intros (j & ln & im & Hj & Hl & Hm' & Hig' & Hu).
           destruct (decide (j = i)) as [-> | Hne].
           ++ rewrite Hi in Hl. injection Hl as -> ->. congruence.
           ++ exists j, ln, im. split; [lia | auto].
    + rewrite (trace_end _ _ _ Hi), IH. split.
      * intros (j & ln & im & Hj & Hrest). exists j, ln, im.
        split; [lia | exact Hrest].
      * intros (j & ln & im & Hj & Hl & Hrest).
        destruct (decide (j = i)) as [-> | Hne]; [congruence|].
        exists j, ln, im. split; [lia | auto].
Qed.

Lemma trace_nodes (g0 : DiGraph) (l : list (string * string)) :
  (forall s, s ∈ l -> s.1 ∈ nodes g0) ->
  forall (i : nat) (n : string),
    n ∈ nodes (foldl scan_step g0 (take i l)) <->
    n ∈ nodes g0 \/
    exists j label line imported,
      (j < i)%nat /\ l !! j = Some (label, line) /\
      import_re_match line = Some imported /\ ignored_import imported = false /\
      n = resolve_import (foldl scan_step g0 (take j l)) imported.
Proof.
  intros Hlab. induction i as [|i IH]; intros n.
  - rewrite take_0. simpl. split; [auto|].
    intros [? | (j & _ & _ & _ & Hj & _)]; [assumption | lia].
  - destruct (l !! i) as [[label line]|] eqn:Hi.
    + rewrite (trace_step _ _ _ _ Hi). unfold scan_step at 1. simpl.
      assert (label ∈ nodes g0) as Hl0
        by (apply (Hlab (label, line)); eapply list_elem_of_lookup_2; exact Hi).
      unfold scan_line.
      destruct (import_re_match line) as [imported|] eqn:Hm;
        [destruct (ignored_import imported) eqn:Hig|].
      * rewrite IH. split.
        -- intros [? | (j & lb & ln & im & Hj & Hrest)]; [auto|].
           right. exists j, lb, ln, im. split; [lia | exact Hrest].
        -- intros [? | (j & lb & ln & im & Hj & Hl & Hm' & Hig' & Hu)]; [auto|].
           destruct (decide (j = i)) as [-> | Hne].
           ++ rewrite Hi in Hl. injection Hl as -> ->. congruence.
           ++ right. exists j, lb, ln, im. split; [lia | auto].
      * rewrite add_edge_nodes, IH. split.
        -- intros [-> | [-> | [? | (j & lb & ln & im & Hj & Hrest)]]]; auto.
           ++ right. exists i, label, line, imported. split; [lia | auto].
           ++ right. exists j, lb, ln, im. split; [lia | exact Hrest].
        -- intros [? | (j & lb & ln & im & Hj & Hl & Hm' & Hig' & Hu)]; [auto|].
           destruct (decide (j = i)) as [-> | Hne].
           ++ rewrite Hi in Hl. injection Hl as -> ->.
              rewrite Hm in Hm'. injection Hm' as ->. left. exact Hu.
           ++ right. right. right. exists j, lb, ln, im. split; [lia | auto].
      * rewrite IH. split.
        -- intros [? | (j & lb & ln & im & Hj & Hrest)]; [auto|].
           right. exists j, lb, ln, im. split; [lia | exact Hrest].
        -- intros [? | (j & lb & ln & im & Hj & Hl & Hm' & Hig' & Hu)]; [auto|].
           destruct (decide (j = i)) as [-> | Hne].
           ++ rewrite Hi in Hl. injection Hl as -> ->. congruence.
           ++ right. exists j, lb, ln, im. split; [lia | auto].
    + rewrite (trace_end _ _ _ Hi), IH. split.
      * intros [? | (j & lb & ln & im & Hj & Hrest)]; [auto|].
        right. exists j, lb, ln, im. split; [lia | exact Hrest].
      * intros [? | (j & lb & ln & im & Hj & Hl & Hrest)]; [auto|].
        destruct (decide (j = i)) as [-> | Hne]; [congruence|].
        right. exists j, lb, ln, im. split; [lia | auto].
Qed.

(** C3 (as amended). The graph that [parse_imports] returns is the graph
    reached when every line of every scanned file has been scanned, in the
    order of the files and of their lines. For every such line that matches
    the import pattern with a token that does not start with [tactic.] or
    [meta.]: when the token is a known node the reference stays as it is;
    otherwise, when the token with [.default] appended is a known node, the
    reference is redirected to that node; otherwise the token is prefixed
    with [lean_core.]; and the edge from the resolved target to the importing
    file is in the graph. The known nodes are those of the graph at the time
    the line is scanned: the labels of the scanned files and the targets
    resolved for the lines before it. The graph has these edges and no
    other. *)
Theorem parse_imports_resolution (root_path : list string)
  (tree : list SourceFile) (G : DiGraph) :
  parse_imports root_path tree = Return G ->
  G = graph_before root_path tree (length (scan_steps root_path tree)) /\
  (forall f, f ∈ glob_lean tree ->
             in_excluded_category root_path f = Return false ->
             read_text f = Return (text f)) /\
  (forall label line,
     (label, line) ∈ scan_steps root_path tree <->
     exists f, f ∈ glob_lean tree /\
               in_excluded_category root_path f = Return false /\
               label = mk_label f /\ line ∈ split_lines (text f)) /\
  (forall i label line imported,
     scan_steps root_path tree !! i = Some (label, line) ->
     import_re_match line = Some imported -> ignored_import imported = false ->
     edge G (resolve_import (graph_before root_path tree i) imported) label /\
     (imported ∈ nodes (graph_before root_path tree i) ->
      resolve_import (graph_before root_path tree i) imported = imported) /\
     (imported ∉ nodes (graph_before root_path tree i) ->
      imported +:+ ".default" ∈ nodes (graph_before root_path tree i) ->
      resolve_import (graph_before root_path tree i) imported
      = imported +:+ ".default") /\
     (imported ∉ nodes (graph_before root_path tree i) ->
      imported +:+ ".default" ∉ nodes (graph_before root_path tree i) ->
      resolve_import (graph_before root_path tree i) imported
      = "lean_core." +:+ imported)) /\
  (forall i n,
     n ∈ nodes (graph_before root_path tree i) <->
     (exists f, f ∈ glob_lean tree /\
                in_excluded_category root_path f = Return false /\
                n = mk_label f) \/
     (exists j label line imported,
        (j < i)%nat /\ scan_steps root_path tree !! j = Some (label, line) /\
        import_re_match line = Some imported /\
        ignored_import imported = false /\
        n = resolve_import (graph_before root_path tree j) imported)) /\
  (forall u v,
     edge G u v <->
     exists i line imported,
       scan_steps root_path tree !! i = Some (v, line) /\
       import_re_match line = Some imported /\
       ignored_import imported = false /\
       u = resolve_import (graph_before root_path tree i) imported).
Proof.
  unfold parse_imports.
  destruct (foldlM (add_file_node root_path) empty_graph (glob_lean tree))
    as [g1|e] eqn:H1; simpl; [|discriminate].
  intros H2. apply first_pass_steps in H1.
  apply second_pass_steps in H2 as [HG Hread].
  fold (scanned_files root_path tree) in H1, HG.
  fold (first_pass_graph root_path tree) in H1. subst g1.
  fold (scan_steps root_path tree) in HG.
  assert (G = graph_before root_path tree (length (scan_steps root_path tree)))
    as HG'.
  { unfold graph_before. rewrite take_ge by lia. exact HG. }
  destruct (first_pass_graph_spec (scanned_files root_path tree) empty_graph)
    as [Hnil Hnodes0].
  fold (first_pass_graph root_path tree) in Hnil, Hnodes0. simpl in Hnil.
  assert (forall n, n ∈ nodes (first_pass_graph root_path tree) <->
            exists f, f ∈ glob_lean tree /\
                      in_excluded_category root_path f = Return false /\
                      n = mk_label f) as Hnodes.
  { intros n. rewrite Hnodes0. simpl. split.
    - intros [Habs | (f & Hf & ->)]; [inversion Habs|].
      apply elem_of_scanned_files in Hf as [Hf Hex]. eauto.
    - intros (f & Hf & Hex & ->). right. exists f.
      split; [apply elem_of_scanned_files; auto | reflexivity]. }
  assert (forall u v,
            edge G u v <->
            exists i line imported,
              scan_steps root_path tree !! i = Some (v, line) /\
              import_re_match line = Some imported /\
              ignored_import imported = false /\
              u = resolve_import (graph_before root_path tree i) imported)
    as Hedges.
  { intros u v. unfold edge. rewrite HG' at 1. unfold graph_before.
    rewrite (trace_edges _ _ Hnil). split.
    - intros (j & ln & im & _ & Hrest). eauto.
    - intros (j & ln & im & Hl & Hrest). exists j, ln, im.
      split; [eapply lookup_lt_Some; exact Hl | auto]. }
  split; [exact HG'|]. split; [exact Hread|].
  split; [apply elem_of_scan_steps|]. split; [|split; [|exact Hedges]].
  - intros i label line imported Hl Hm Hig. split.
    + apply Hedges. exists i, line, imported. auto.
    + apply resolve_import_cases.
  - intros i n. unfold graph_before. rewrite trace_nodes.
    + rewrite Hnodes. reflexivity.
    + intros [label line] Hs. apply elem_of_scan_steps in Hs
        as (f & Hf & Hex & -> & _). simpl. apply Hnodes. eauto.
Qed.

Lemma parse_imports_resolution_witness :
  parse_imports ["src"] tree_ab
    = Return {| nodes := ["A"; "B"]; edges := [("A", "B")] |} /\
  forall u v,
    edge {| nodes := ["A"; "B"]; edges := [("A", "B")] |} u v <->
    exists i line imported,
      scan_steps ["src"] tree_ab !! i = Some (v, line) /\
      import_re_match line = Some imported /\
      ignored_import imported = false /\
      u = resolve_import (graph_before ["src"] tree_ab i) imported.
Proof.
  split; [reflexivity|].
  apply (proj2 (proj2 (proj2 (proj2 (proj2
           (parse_imports_resolution ["src"] tree_ab _ eq_refl)))))).
Defined.

(** C3 as stated fails where [A.lean] and [A/default.lean] both exist: the
    token [A] is a known node and stays, although [A.default] is a known
    node too, so that the edge from [A.default] is missing. *)
Lemma import_default_clash_counterexample :
  ~ import_rule_as_stated ["src"] tree_default_clash.
Proof.
  intros H.
  specialize (H {| nodes := ["A"; "A.default"; "B"]; edges := [("A", "B")] |}
                {| rel := ["B.lean"]; read_text := Return ("import A" +:+ lf) |}
                "import A" "A" eq_refl).
  assert (("A.default", "B") ∈ [("A", "B")]) as Hin.
  { apply H.
    - vm_compute. do 2 right. left.
    - reflexivity.
    - vm_compute. left.
    - reflexivity. }
  apply list_elem_of_singleton in Hin. discriminate Hin.
Qed.

(** The scenarios of the specification for the resolution of imports. *)
Example parse_imports_ab :
  parse_imports ["src"] tree_ab
    = Return {| nodes := ["A"; "B"]; edges := [("A", "B")] |}.
Proof. reflexivity. Qed.

Example parse_imports_default :
  parse_imports ["src"] tree_default
    = Return {| nodes := ["A.default"; "B"; "lean_core.system.io"];
                edges := [("A.default", "B"); ("lean_core.system.io", "B")] |}.
Proof. reflexivity. Qed.

(** ** The excluded categories *)

(** With a root of a single component [path.parts[1]] is the first component
    below the root, and the files of the two categories are left out. *)
Lemma in_excluded_category_short_root (r : string) (f : SourceFile)
  (top : string) (rest : list string) :
  rel f = top :: rest ->
  in_excluded_category [r] f = Return (bool_decide (top ∈ ["tactic"; "meta"])).
Proof. intros H. unfold in_excluded_category, path_parts. rewrite H. reflexivity. Qed.

(** With a longer root it is a component of the root itself. *)
Lemma in_excluded_category_long_root (r0 r1 : string) (root : list string)
  (f : SourceFile) :
  in_excluded_category (r0 :: r1 :: root) f
    = Return (bool_decide (r1 ∈ ["tactic"; "meta"])).
Proof. reflexivity. Qed.

(** C4, the code at the root it is called with, [build/repos/mathlib/src]:
    [path.parts[1]] is [repos] for every file, so the file
    [tactic/ring.lean] is not excluded, gets the node [tactic.ring] and, for
    the import it contains, an edge. With the root [src] the same file is
    left out. The import of [tactic.ring] by the other file is ignored in
    both cases. *)
Theorem tactic_file_not_excluded :
  in_excluded_category deployed_root tactic_ring = Return false /\
  parse_imports deployed_root tree_tactic
    = Return {| nodes := ["tactic.ring"; "algebra.group"];
                edges := [("algebra.group", "tactic.ring")] |} /\
  in_excluded_category ["src"] tactic_ring = Return true /\
  parse_imports ["src"] tree_tactic
    = Return {| nodes := ["algebra.group"]; edges := [] |}.
Proof. repeat split; reflexivity. Qed.

(** ** The reduced graph *)

(** C2. For an acyclic graph that the builder returns, the reduction
    returns a graph; a node reaches another in it exactly when it does in
    the graph of the builder; and the removal of any edge of the reduced
    graph disconnects a pair that was connected, namely the ends of that
    edge. *)
Theorem transitive_reduction_spec (root_path : list string)
  (tree : list SourceFile) (g : DiGraph) :
  parse_imports root_path tree = Return g ->
  acyclic g ->
  exists tr,
    transitive_reduction g = Return tr /\
    nodes tr = nodes g /\
    (forall u v, reaches tr u v <-> reaches g u v) /\
    (forall u v, edge tr u v ->
       reaches tr u v /\ ~ reaches (remove_edge (u, v) tr) u v).
Proof.
  intros Hg Hacyclic. pose proof (parse_imports_wf _ _ _ Hg) as Hwf.
  destruct (transitive_reduction_returns g Hacyclic) as [tr Htr].
  exists tr. split; [exact Htr|]. split; [exact (reduction_nodes g tr Htr)|].
  split.
  - intros u v. apply (reduction_reaches g tr Hwf Hacyclic Htr).
  - intros u v He. split; [apply tc_once, He|].
    apply (reduction_minimal g tr Hwf Hacyclic Htr), He.
Qed.

Lemma transitive_reduction_spec_witness :
  exists tr,
    transitive_reduction graph_abc = Return tr /\
    nodes tr = nodes graph_abc /\
    (forall u v, reaches tr u v <-> reaches graph_abc u v) /\
    (forall u v, edge tr u v ->
       reaches tr u v /\ ~ reaches (remove_edge (u, v) tr) u v).
Proof.
  apply (transitive_reduction_spec ["src"] tree_abc graph_abc).
  - reflexivity.
  - apply is_directed_acyclic_graph_spec. vm_compute. reflexivity.
Defined.

Example transitive_reduction_abc :
  transitive_reduction graph_abc = Return reduced_abc.
Proof. reflexivity. Qed.

(** ** The aggregated data *)

Section AggregatorFacts.
Context (count_lines : string -> result (option Z)).
Context (labels_of : Z -> result (list Label)).
Context (history : result (gmap string (list FileHistoryEntry))).
Context (graph : DiGraph).

Lemma elem_of_tracked (data : gmap string Mathlib3FileData) (ks : list string)
  (k : string) :
  k ∈ tracked data ks <-> is_Some (data !! k) /\ k ∈ ks.
Proof. unfold tracked. rewrite list_elem_of_filter. reflexivity. Qed.

(** What [get_data] returns is the result of its first loop with the two
    later loops applied to every entry. *)
Lemma get_data_lookup (port_status : list (string * PortStatusEntry))
  (data : gmap string Mathlib3FileData) :
  get_data count_lines labels_of history graph port_status = Return data ->
  exists (data0 : gmap string Mathlib3FileData)
         (h : gmap string (list FileHistoryEntry)),
    history = Return h /\
    forall k : string,
      data !! k = (fun d => attach_history h k
                              (attach_graph_data graph data0 k d)) <$> data0 !! k.
Proof.
  unfold get_data.
  destruct (foldlM (new_file_data count_lines labels_of) ∅ port_status)
    as [data0|e]; simpl; [|discriminate].
  destruct history as [h|e]; simpl; [|discriminate].
  intros H. injection H as <-. exists data0, h. split; [reflexivity|].
  intros k. rewrite !map_lookup_imap. destruct (data0 !! k); reflexivity.
Qed.

(** C7. After [get_data], for tracked files [u] and [v] that are nodes of
    the graph, [v] is among the dependencies of [u] exactly when [u] is among
    the dependents of [v]; the dependents of a file are the tracked files
    reached from its node, its dependencies the tracked files that reach its
    node. *)
Theorem dependencies_dependents_consistent
  (port_status : list (string * PortStatusEntry))
  (data : gmap string Mathlib3FileData) (u v : string)
  (du dv : Mathlib3FileData) :
  get_data count_lines labels_of history graph port_status = Return data ->
  data !! u = Some du -> data !! v = Some dv ->
  u ∈ nodes graph -> v ∈ nodes graph ->
  exists deps dents,
    dependencies du = Some deps /\ dependents dv = Some dents /\
    (v ∈ deps <-> u ∈ dents) /\
    (forall k, k ∈ dents <-> is_Some (data !! k) /\ k <> v /\ reaches graph v k) /\
    (forall k, k ∈ deps <-> is_Some (data !! k) /\ k <> u /\ reaches graph k u).
Proof.
  intros Hdata Hu Hv Hun Hvn.
  destruct (get_data_lookup _ _ Hdata) as (data0 & h & _ & Hlook).
  assert (forall k, is_Some (data !! k) <-> is_Some (data0 !! k)) as Hdom.
  { intros k. rewrite Hlook. apply fmap_is_Some. }
  rewrite Hlook in Hu, Hv.
  destruct (data0 !! u) as [u0|] eqn:Hu0; [|discriminate].
  destruct (data0 !! v) as [v0|] eqn:Hv0; [|discriminate].
  simpl in Hu, Hv. injection Hu as <-. injection Hv as <-.
  unfold attach_graph_data.
  destruct (decide (u ∈ nodes graph)); [|contradiction].
  destruct (decide (v ∈ nodes graph)); [|contradiction].
  simpl. eexists _, _. split; [reflexivity|]. split; [reflexivity|].
  split; [|split].
  - rewrite !elem_of_tracked, elem_of_ancestors, elem_of_descendants.
    rewrite Hu0, Hv0. split; intros (_ & Hne & Hr); (split; [eauto|]);
      (split; [congruence | exact Hr]).
  - intros k. rewrite elem_of_tracked, elem_of_descendants, Hdom. reflexivity.
  - intros k. rewrite elem_of_tracked, elem_of_ancestors, Hdom. reflexivity.
Qed.
End AggregatorFacts.

Lemma dependencies_dependents_consistent_witness :
  exists data du dv deps dents,
    get_data no_lines no_labels no_history reduced_abc abc_port_status = Return data /\
    data !! "C" = Some du /\ data !! "A" = Some dv /\
    dependencies du = Some deps /\ dependents dv = Some dents /\
    ("A" ∈ deps <-> "C" ∈ dents).
Proof.
  destruct (get_data no_lines no_labels no_history reduced_abc abc_port_status)
    as [data|e] eqn:Hdata; [|vm_compute in Hdata; discriminate Hdata].
  destruct (data !! "C") as [du|] eqn:Hu;
    [|injection Hdata as <-; vm_compute in Hu; discriminate Hu].
  destruct (data !! "A") as [dv|] eqn:Hv;
    [|injection Hdata as <-; vm_compute in Hv; discriminate Hv].
  assert ("C" ∈ nodes reduced_abc) as HC by (simpl; do 2 right; left).
  assert ("A" ∈ nodes reduced_abc) as HA by (simpl; left).
  destruct (dependencies_dependents_consistent no_lines no_labels no_history reduced_abc
              abc_port_status data "C" "A" du dv Hdata Hu Hv HC HA)
    as (deps & dents & Hd & He & Hiff & _).
  exists data, du, dv, deps, dents. auto 10.
Defined.

(* ===================================================================== *)
(** * Part II, continued: properties of the rest of the code *)
(* ===================================================================== *)

(** ** Strings: splitting, joining, prefixes *)

Lemma split_on_nonempty (c : ascii) (s : string) : split_on c s <> [].
Proof.
  destruct s as [|a r]; simpl; [discriminate|].
  destruct (Ascii.eqb a c); [discriminate|].
  destruct (split_on c r); discriminate.
Qed.

Lemma join_dot_cons_char (a : ascii) (l : string) (ls : list string) :
  join_dot (String a l :: ls) = String a (join_dot (l :: ls)).
Proof. destruct ls; reflexivity. Qed.

Lemma join_dot_split_on (s : string) : join_dot (split_on dot s) = s.
Proof.
  induction s as [|a r IH]; [reflexivity|]. simpl.
  destruct (Ascii.eqb_spec a dot) as [-> | Hne].
  - pose proof (split_on_nonempty dot r) as Hn.
    destruct (split_on dot r) as [|l ls] eqn:Hs; [contradiction|].
    rewrite <- IH. reflexivity.
  - pose proof (split_on_nonempty dot r) as Hn.
    destruct (split_on dot r) as [|l ls] eqn:Hs; [contradiction|].
    rewrite join_dot_cons_char. f_equal. exact IH.
Qed.

Lemma split_on_no_char (c : ascii) (s : string) :
  has_char c s = false -> split_on c s = [s].
Proof.
  induction s as [|a r IH]; [reflexivity|]. simpl.
  intros H. apply orb_false_iff in H as [Ha Hr].
  rewrite Ha, (IH Hr). reflexivity.
Qed.

Lemma split_on_app (c : ascii) (p r : string) :
  has_char c p = false ->
  split_on c (p +:+ String c r) = p :: split_on c r.
Proof.
  induction p as [|a p IH]; simpl.
  - intros _. rewrite Ascii.eqb_refl. reflexivity.
  - intros H. apply orb_false_iff in H as [Ha Hp].
    rewrite Ha, (IH Hp). reflexivity.
Qed.

Lemma split_on_join_dot (ps : list string) :
  ps <> [] -> Forall (fun p => has_char dot p = false) ps ->
  split_on dot (join_dot ps) = ps.
Proof.
  intros Hne Hall. induction Hall as [|p ps Hp Hall IH]; [contradiction|].
  destruct ps as [|q ps].
  - simpl. apply split_on_no_char, Hp.
  - change (join_dot (p :: q :: ps)) with (p +:+ String dot (join_dot (q :: ps))).
    rewrite (split_on_app _ _ _ Hp). f_equal. apply IH. discriminate.
Qed.

Lemma prefix_app (p t : string) : String.prefix p (p +:+ t) = true.
Proof.
  induction p as [|a p IH]; simpl; [destruct t; reflexivity|].
  destruct (ascii_dec a a); [exact IH | contradiction].
Qed.

Lemma prefix_split (p s : string) :
  String.prefix p s = true -> exists t, s = p +:+ t.
Proof.
  revert s. induction p as [|a p IH]; intros s H; [exists s; reflexivity|].
  destruct s as [|b s]; simpl in H; [discriminate|].
  destruct (ascii_dec a b) as [-> | ]; [|discriminate].
  destruct (IH s H) as [t ->]. exists t. reflexivity.
Qed.

Lemma substring_all (s : string) : substring 0 (String.length s) s = s.
Proof. induction s as [|a s IH]; simpl; [reflexivity | f_equal; exact IH]. Qed.

Lemma substring_after (p t : string) :
  substring (String.length p) (String.length (p +:+ t) - String.length p) (p +:+ t)
  = t.
Proof.
  induction p as [|a p IH]; simpl.
  - rewrite Nat.sub_0_r. apply substring_all.
  - exact IH.
Qed.

Lemma substring_before (p t : string) :
  substring 0 (String.length p) (p +:+ t) = p.
Proof.
  induction p as [|a p IH]; simpl; [destruct t; reflexivity | f_equal; exact IH].
Qed.

Lemma removeprefix_app (p t : string) : removeprefix p (p +:+ t) = t.
Proof.
  unfold removeprefix, startswith. rewrite prefix_app. apply substring_after.
Qed.

Lemma non_space_prefix_spec (s tok : string) :
  non_space_prefix s = tok <->
  has_char space tok = false /\
  exists rest, s = tok +:+ rest /\ (rest = "" \/ exists r, rest = String space r).
Proof.
  revert tok. induction s as [|a s IH]; intros tok; simpl.
  - split.
    + intros <-. split; [reflexivity|]. exists "". auto.
    + intros (_ & rest & Heq & _). destruct tok; [reflexivity | discriminate].
  - destruct (Ascii.eqb_spec a space) as [-> | Hne].
    + split.
      * intros <-. split; [reflexivity|]. exists (String space s). eauto.
      * intros (Hno & rest & Heq & _). destruct tok as [|b tok]; [reflexivity|].
        simpl in Heq. injection Heq as <- _. simpl in Hno.
        try rewrite Ascii.eqb_refl in Hno. discriminate.
    + split.
      * intros <-. simpl. destruct (IH (non_space_prefix s)) as [H _].
        destruct (H eq_refl) as (Hno & rest & Heq & Hrest).
        split.
        -- apply orb_false_iff. split; [apply Ascii.eqb_neq, Hne | exact Hno].
        -- exists rest. split; [|exact Hrest].
           change (String a s = String a (non_space_prefix s +:+ rest)).
           f_equal. exact Heq.
      * intros (Hno & rest & Heq & Hrest). destruct tok as [|b tok].
        -- simpl in Heq. destruct Hrest as [-> | (r & ->)]; [discriminate|].
           injection Heq as -> _. contradiction.
        -- simpl in Heq. injection Heq as <- Heq. f_equal. apply IH.
           simpl in Hno. apply orb_false_iff in Hno as [_ Hno].
           split; [exact Hno | eauto].
Qed.

(** X1. A line matches the import pattern exactly when it is the word
    import, one space, a token without a space and then nothing or a space
    and anything: an indented line, or [import] followed by a tab, does not
    match, and only the first name of a line is read. *)
Theorem import_re_match_spec (line imported : string) :
  import_re_match line = Some imported <->
  has_char space imported = false /\
  exists rest, line = "import " +:+ imported +:+ rest /\
               (rest = "" \/ exists r, rest = String space r).
Proof.
  unfold import_re_match, startswith. split.
  - destruct (String.prefix "import " line) eqn:Hp; [|discriminate].
    apply prefix_split in Hp as [t ->]. intros H.
    assert (substring 7 (String.length ("import " +:+ t) - 7) ("import " +:+ t) = t)
      as Hs by apply (substring_after "import " t).
    rewrite Hs in H. injection H as H.
    apply non_space_prefix_spec in H as (Hno & rest & -> & Hrest).
    split; [exact Hno|]. exists rest. split; [reflexivity | exact Hrest].
  - intros (Hno & rest & -> & Hrest).
    rewrite (prefix_app "import " (imported +:+ rest)).
    assert (substring 7 (String.length ("import " +:+ imported +:+ rest) - 7)
              ("import " +:+ imported +:+ rest) = imported +:+ rest)
      as Hs by apply (substring_after "import " (imported +:+ rest)).
    rewrite Hs. f_equal. apply non_space_prefix_spec. split; [exact Hno|]. eauto.
Qed.

Lemma import_re_match_spec_witness :
  has_char space "data.nat.basic" = false /\
  import_re_match " import data.nat.basic" = None.
Proof.
  split.
  - apply (proj1 (import_re_match_spec "import data.nat.basic data.int.basic"
                    "data.nat.basic") eq_refl).
  - destruct (import_re_match " import data.nat.basic") as [tok|] eqn:H;
      [|reflexivity].
    apply (import_re_match_spec " import data.nat.basic" tok) in H
      as (_ & rest & Heq & _).
    discriminate Heq.
Defined.

(** X2. Splitting an import name at the dots and joining the pieces with
    dots gives the name back, so the name that [dep_graph_data] rebuilds from
    [mathlib3_import] is the key of the file; and joining pieces that are
    free of dots and splitting again gives the pieces back. *)
Theorem split_join_round_trip :
  (forall f_import, join_dot (split_on dot f_import) = f_import) /\
  (forall parts, parts <> [] ->
                 Forall (fun p => has_char dot p = false) parts ->
                 split_on dot (join_dot parts) = parts).
Proof. split; [apply join_dot_split_on | apply split_on_join_dot]. Qed.

Lemma split_join_round_trip_witness :
  split_on dot (join_dot ["data"; "nat"; "basic"]) = ["data"; "nat"; "basic"].
Proof.
  apply (proj2 split_join_round_trip); [discriminate|].
  repeat constructor.
Defined.

(** ** Labels of the files that the glob yields *)

Lemma string_length_app (s t : string) :
  String.length (s +:+ t) = (String.length s + String.length t)%nat.
Proof. induction s as [|a s IH]; simpl; [reflexivity | f_equal; exact IH]. Qed.

Lemma substring_split (n : nat) (s : string) :
  (n <= String.length s)%nat ->
  s = substring 0 n s +:+ substring n (String.length s - n) s.
Proof.
  revert s. induction n as [|n IH]; intros s Hn; simpl.
  - destruct s; simpl; [reflexivity|].
    rewrite substring_all. reflexivity.
  - destruct s as [|a s]; simpl in *; [lia|].
    change (String a s = String a (substring 0 n s +:+
                                   substring n (String.length s - n) s)).
    f_equal. apply IH. lia.
Qed.

Lemma endswith_split (p s : string) :
  endswith p s = true -> exists stem, s = stem +:+ p.
Proof.
  unfold endswith. intros H. apply andb_true_iff in H as [Hlen Heq].
  apply Nat.leb_le in Hlen. apply String.eqb_eq in Heq.
  exists (substring 0 (String.length s - String.length p) s).
  rewrite (substring_split (String.length s - String.length p) s) at 1 by lia.
  f_equal. rewrite <- Heq at 3. f_equal. lia.
Qed.

Lemma rfind_dot_none (t : string) :
  has_char dot t = false -> rfind_dot t = None.
Proof.
  induction t as [|a t IH]; simpl; [reflexivity|].
  intros H. apply orb_false_iff in H as [Ha Ht].
  rewrite (IH Ht), Ha. reflexivity.
Qed.

Lemma rfind_dot_last (s t : string) :
  has_char dot t = false ->
  rfind_dot (s +:+ String dot t) = Some (String.length s).
Proof.
  intros Ht. induction s as [|a s IH]; simpl.
  - rewrite (rfind_dot_none t Ht). reflexivity.
  - rewrite IH. reflexivity.
Qed.

Lemma strip_suffix_lean (stem : string) :
  (stem <> "" -> strip_suffix (stem +:+ ".lean") = stem) /\
  (stem = "" -> strip_suffix (stem +:+ ".lean") = ".lean").
Proof.
  split; [|intros ->; reflexivity].
  intros Hne. unfold strip_suffix.
  assert (rfind_dot (stem +:+ ".lean") = Some (String.length stem)) as Hr
    by apply (rfind_dot_last stem "lean" eq_refl).
  rewrite Hr, string_length_app.
  destruct stem as [|a stem]; [contradiction|].
  replace ((0 <? String.length (String a stem))%nat) with true
    by (symmetry; apply Nat.ltb_lt; simpl; lia).
  replace ((String.length (String a stem)
            <? String.length (String a stem) + String.length ".lean" - 1)%nat)
    with true by (symmetry; apply Nat.ltb_lt; simpl; lia).
  simpl andb. cbv iota. apply substring_before.
Qed.

Lemma strip_last_suffix_snoc (dirs : list string) (name : string) :
  strip_last_suffix (dirs ++ [name])%list = (dirs ++ [strip_suffix name])%list.
Proof.
  induction dirs as [|d dirs IH]; [reflexivity|].
  simpl. rewrite IH. destruct dirs; reflexivity.
Qed.

Lemma substring_suffix (p t : string) :
  substring (String.length p) (String.length t) (p +:+ t) = t.
Proof. induction p as [|a p IH]; simpl; [apply substring_all | exact IH]. Qed.

Lemma endswith_app (stem p : string) : endswith p (stem +:+ p) = true.
Proof.
  unfold endswith. apply andb_true_iff. rewrite string_length_app. split.
  - apply Nat.leb_le. lia.
  - apply String.eqb_eq.
    replace (String.length stem + String.length p - String.length p)%nat
      with (String.length stem) by lia.
    apply substring_suffix.
Qed.

Lemma elem_of_glob_lean (tree : list SourceFile) (f : SourceFile) :
  f ∈ glob_lean tree <->
  f ∈ tree /\ exists dirs stem, rel f = (dirs ++ [stem +:+ ".lean"])%list.
Proof.
  unfold glob_lean. rewrite !list_elem_of_In, filter_In. split.
  - intros [Hin Hl]. split; [exact Hin|].
    destruct (last (rel f)) as [name|] eqn:Hlast; [|discriminate].
    apply last_Some in Hlast as [dirs Hrel].
    apply endswith_split in Hl as [stem ->]. eauto.
  - intros [Hin (dirs & stem & Hrel)]. split; [exact Hin|].
    rewrite Hrel, last_snoc. apply endswith_app.
Qed.

(** X3. The glob yields exactly the files whose name ends in [.lean], and the
    label of such a file is its path below the root with that extension
    removed and the components joined by dots; only a file named just
    [.lean] keeps its name whole. *)
Theorem mk_label_glob (tree : list SourceFile) (f : SourceFile) :
  f ∈ glob_lean tree ->
  exists dirs stem,
    rel f = (dirs ++ [stem +:+ ".lean"])%list /\
    (stem <> "" -> mk_label f = join_dot (dirs ++ [stem])%list) /\
    (stem = "" -> mk_label f = join_dot (dirs ++ [".lean"])%list).
Proof.
  intros Hf. apply elem_of_glob_lean in Hf as [_ (dirs & stem & Hrel)].
  exists dirs, stem. split; [exact Hrel|].
  unfold mk_label. rewrite Hrel, strip_last_suffix_snoc.
  destruct (strip_suffix_lean stem) as [H1 H2].
  split; intros H; [rewrite (H1 H) | rewrite (H2 H)]; reflexivity.
Qed.

Lemma mk_label_glob_witness :
  exists dirs stem,
    ["data"; "nat.lean"] = (dirs ++ [stem +:+ ".lean"])%list /\
    (stem <> "" ->
     mk_label {| rel := ["data"; "nat.lean"]; read_text := Return "" |}
       = join_dot (dirs ++ [stem])%list) /\
    (stem = "" ->
     mk_label {| rel := ["data"; "nat.lean"]; read_text := Return "" |}
       = join_dot (dirs ++ [".lean"])%list).
Proof.
  apply (mk_label_glob tree_dot_lean {| rel := ["data"; "nat.lean"]; read_text := Return "" |}).
  vm_compute. right. left.
Defined.

(** ** The builder: errors, nodes, duplicates *)

Lemma foldlM_total {A B : Type} (body : A -> B -> result A) (l : list B) :
  (forall a x, x ∈ l -> exists a', body a x = Return a') ->
  forall a, exists r, foldlM body a l = Return r.
Proof.
  induction l as [|y l IH]; intros Hb a; simpl; [eauto|].
  destruct (Hb a y) as [a' ->]; [left|]. simpl.
  apply IH. intros a0 x Hx. apply Hb. right. exact Hx.
Qed.

Lemma foldlM_raise {A B : Type} (body : A -> B -> result A) (l : list B)
  (a : A) (e : exn) :
  foldlM body a l = Raise e -> exists a' x, x ∈ l /\ body a' x = Raise e.
Proof.
  revert a. induction l as [|y l IH]; intros a H; simpl in H; [discriminate|].
  destruct (body a y) as [a1|e1] eqn:Hy; simpl in H.
  - destruct (IH a1 H) as (a' & x & Hx & Hr). exists a', x. split; [right|]; auto.
  - injection H as ->. exists a, y. split; [left | exact Hy].
Qed.

Lemma in_excluded_category_raise (root_path : list string) (f : SourceFile)
  (e : exn) :
  in_excluded_category root_path f = Raise e ->
  e = IndexError /\ (length (path_parts root_path f) < 2)%nat.
Proof.
  unfold in_excluded_category.
  destruct (path_parts root_path f !! 1%nat) eqn:Hl; [discriminate|].
  intros H. injection H as <-. split; [reflexivity|].
  apply lookup_ge_None in Hl. lia.
Qed.

Lemma in_excluded_category_return (root_path : list string) (f : SourceFile) :
  (2 <= length (path_parts root_path f))%nat ->
  exists b, in_excluded_category root_path f = Return b.
Proof.
  intros H. unfold in_excluded_category.
  destruct (path_parts root_path f !! 1%nat) eqn:Hl; [eauto|].
  apply lookup_ge_None in Hl. lia.
Qed.

Lemma add_file_node_raise (root_path : list string) (g : DiGraph)
  (f : SourceFile) (e : exn) :
  add_file_node root_path g f = Raise e ->
  in_excluded_category root_path f = Raise e.
Proof.
  unfold add_file_node. destruct (in_excluded_category root_path f) as [[]|];
    simpl; intros H; try discriminate; injection H as ->; reflexivity.
Qed.

Lemma scan_file_raise (root_path : list string) (g : DiGraph)
  (f : SourceFile) (e : exn) :
  scan_file root_path g f = Raise e ->
  in_excluded_category root_path f = Raise e \/
  (in_excluded_category root_path f = Return false /\ read_text f = Raise e).
Proof.
  unfold scan_file. destruct (in_excluded_category root_path f) as [[]|];
    simpl; [discriminate | | intros H; injection H as ->; auto].
  destruct (read_text f) as [t|e']; simpl; [discriminate|].
  intros H. injection H as ->. auto.
Qed.

(** X4. The builder fails only in two ways: with [IndexError], when
    [root_path] has no parts (the current directory) and a Lean file lies
    directly in it, or with the exception that reading a scanned file raises.
    With a root that has parts and every scanned file readable it returns a
    graph; and it returns no graph when a scanned file cannot be read. *)
Theorem parse_imports_errors (root_path : list string) (tree : list SourceFile) :
  (root_path <> [] ->
   (forall f, scanned root_path tree f -> exists t, read_text f = Return t) ->
   exists g, parse_imports root_path tree = Return g) /\
  (forall e, parse_imports root_path tree = Raise e ->
     (e = IndexError /\ root_path = [] /\
      exists f name, f ∈ glob_lean tree /\ rel f = [name]) \/
     (exists f, scanned root_path tree f /\ read_text f = Raise e)) /\
  (forall f e, scanned root_path tree f -> read_text f = Raise e ->
     forall g, parse_imports root_path tree <> Return g).
Proof.
  assert (forall f e, f ∈ glob_lean tree ->
            in_excluded_category root_path f = Raise e ->
            e = IndexError /\ root_path = [] /\
            exists f name, f ∈ glob_lean tree /\ rel f = [name]) as Hraise.
  { intros f e Hf He. apply in_excluded_category_raise in He as [-> Hlen].
    split; [reflexivity|].
    pose proof Hf as Hg. apply elem_of_glob_lean in Hg as [_ (dirs & stem & Hrel)].
    unfold path_parts in Hlen. rewrite Hrel, !length_app in Hlen. simpl in Hlen.
    destruct root_path; [|simpl in Hlen; lia].
    destruct dirs; [|simpl in Hlen; lia].
    split; [reflexivity|]. exists f, (stem +:+ ".lean"). auto. }
  split; [|split].
  - intros Hroot Hread.
    assert (forall f, f ∈ glob_lean tree ->
              exists b, in_excluded_category root_path f = Return b) as Hret.
    { intros f Hf. destruct (in_excluded_category root_path f) as [b|e] eqn:He;
        [eauto|].
      destruct (Hraise f e Hf He) as (_ & Hnil & _). contradiction. }
    unfold parse_imports.
    destruct (foldlM_total (add_file_node root_path) (glob_lean tree)) with
      (a := empty_graph) as [g1 ->].
    { intros a f Hf. unfold add_file_node. destruct (Hret f Hf) as [[] ->];
        simpl; eauto. }
    simpl. apply foldlM_total.
    intros a f Hf. unfold scan_file. destruct (Hret f Hf) as [[] Hex];
      rewrite Hex; simpl; [eauto|].
    destruct (Hread f (conj Hf Hex)) as [t ->]. simpl. eauto.
  - intros e. unfold parse_imports.
    destruct (foldlM (add_file_node root_path) empty_graph (glob_lean tree))
      as [g1|e1] eqn:H1; simpl.
    + intros H. apply foldlM_raise in H as (a & f & Hf & Hr).
      apply scan_file_raise in Hr as [Hr | [Hex Hr]].
      * left. eapply Hraise; eauto.
      * right. exists f. split; [split; assumption | exact Hr].
    + intros H. injection H as ->.
      apply foldlM_raise in H1 as (a & f & Hf & Hr).
      apply add_file_node_raise in Hr. left. eapply Hraise; eauto.
  - intros f e [Hf Hex] Hrd g. unfold parse_imports.
    destruct (foldlM (add_file_node root_path) empty_graph (glob_lean tree))
      as [g1|e1] eqn:H1; simpl; [|discriminate].
    intros H2.
    destruct (foldlM_visits graph_le _ (scan_file_le root_path) _ _ _ _ H2 Hf)
      as (a' & a'' & _ & Hbody & _).
    apply scan_file_return in Hbody as [[Hex' _] | (_ & Hrd' & _)]; congruence.
Qed.

Lemma parse_imports_errors_witness :
  (exists g, parse_imports deployed_root tree_abc = Return g) /\
  (forall g, parse_imports deployed_root tree_unreadable <> Return g).
Proof.
  split.
  - apply (proj1 (parse_imports_errors deployed_root tree_abc)); [discriminate|].
    intros f [Hf _]. vm_compute in Hf.
    repeat (apply elem_of_cons in Hf as [-> | Hf]; [eexists; reflexivity|]).
    inversion Hf.
  - apply (proj2 (proj2 (parse_imports_errors deployed_root tree_unreadable))
             {| rel := ["B.lean"]; read_text := Raise ValueError |} ValueError).
    + split; [vm_compute; right; left | reflexivity].
    + reflexivity.
Defined.

Lemma add_node_NoDup (n : string) (g : DiGraph) :
  NoDup (nodes g) -> NoDup (nodes (add_node n g)).
Proof.
  intros H. unfold add_node. destruct (decide (n ∈ nodes g)) as [Hin|Hnin];
    [exact H|]. simpl. apply NoDup_app. split; [exact H|]. split.
  - intros x Hx Hx'. apply list_elem_of_singleton in Hx' as ->. contradiction.
  - apply NoDup_singleton.
Qed.

Lemma add_edge_NoDup (u v : string) (g : DiGraph) :
  NoDup (nodes g) /\ NoDup (edges g) ->
  NoDup (nodes (add_edge u v g)) /\ NoDup (edges (add_edge u v g)).
Proof.
  intros [Hn He]. unfold add_edge. cbv zeta.
  pose proof (add_node_NoDup v _ (add_node_NoDup u g Hn)) as Hn'.
  destruct (decide ((u, v) ∈ edges (add_node v (add_node u g)))) as [Hin|Hnin];
    simpl; rewrite !add_node_edges in *; (split; [exact Hn'|]); [exact He|].
  apply NoDup_app. split; [exact He|]. split.
  - intros x Hx Hx'. apply list_elem_of_singleton in Hx' as ->. contradiction.
  - apply NoDup_singleton.
Qed.

Lemma scan_line_NoDup (label : string) (g : DiGraph) (line : string) :
  NoDup (nodes g) /\ NoDup (edges g) ->
  NoDup (nodes (scan_line label g line)) /\ NoDup (edges (scan_line label g line)).
Proof.
  intros H. unfold scan_line.
  destruct (import_re_match line) as [imported|]; [|exact H].
  destruct (ignored_import imported); [exact H | apply add_edge_NoDup, H].
Qed.

(** X5. The graph that the builder returns is a well-formed [DiGraph]: no
    node and no edge occurs twice, however often a file is imported, and
    both ends of every edge are nodes. *)
Theorem parse_imports_no_duplicates (root_path : list string)
  (tree : list SourceFile) (g : DiGraph) :
  parse_imports root_path tree = Return g ->
  NoDup (nodes g) /\ NoDup (edges g) /\
  (forall u v, edge g u v -> u ∈ nodes g /\ v ∈ nodes g).
Proof.
  intros Hg. pose proof (parse_imports_wf _ _ _ Hg) as Hwf.
  revert Hg. unfold parse_imports.
  destruct (foldlM (add_file_node root_path) empty_graph (glob_lean tree))
    as [g1|e] eqn:H1; simpl; [|discriminate].
  intros H2.
  cut (NoDup (nodes g) /\ NoDup (edges g)); [intros [? ?]; auto|].
  revert H2. apply (foldlM_invariant (fun a => NoDup (nodes a) /\ NoDup (edges a))).
  - intros a f a' _ Ha Hs. apply scan_file_return in Hs as [[Hex ->] | (Hex & Hrd & ->)];
      [exact Ha|].
    apply foldl_invariant; [|exact Ha]. intros; apply scan_line_NoDup; assumption.
  - revert H1.
    apply (foldlM_invariant (fun a => NoDup (nodes a) /\ NoDup (edges a))).
    + intros a f a' _ [Hn He] Hs. unfold add_file_node in Hs.
      destruct (in_excluded_category root_path f) as [[]|]; simpl in Hs;
        try discriminate; injection Hs as <-; [auto|].
      rewrite add_node_edges. split; [apply add_node_NoDup, Hn | exact He].
    + split; apply NoDup_nil_2.
Qed.

Lemma parse_imports_no_duplicates_witness :
  NoDup (nodes graph_abc) /\ NoDup (edges graph_abc) /\
  (forall u v, edge graph_abc u v -> u ∈ nodes graph_abc /\ v ∈ nodes graph_abc).
Proof. apply (parse_imports_no_duplicates ["src"] tree_abc). reflexivity. Defined.

Lemma resolve_import_origin (g : DiGraph) (imported : string) :
  resolve_import g imported ∈ nodes g \/
  startswith "lean_core." (resolve_import g imported) = true.
Proof.
  unfold resolve_import. repeat case_decide; auto.
  right. apply (prefix_app "lean_core." imported).
Qed.

(** X6. The nodes of the graph that the builder returns are the labels of
    the files it scans and, beyond those, only names that begin with
    [lean_core.] and are imported by some file: every scanned file is a node
    even when nothing imports it, and no other name becomes a node. *)
Theorem parse_imports_nodes (root_path : list string) (tree : list SourceFile)
  (g : DiGraph) :
  parse_imports root_path tree = Return g ->
  forall n, n ∈ nodes g <->
    (exists f, scanned root_path tree f /\ n = mk_label f) \/
    (startswith "lean_core." n = true /\ exists v, edge g n v).
Proof.
  intros Hg n. pose proof (parse_imports_wf _ _ _ Hg) as Hwf.
  revert Hg. unfold parse_imports.
  destruct (foldlM (add_file_node root_path) empty_graph (glob_lean tree))
    as [g1|e] eqn:H1; simpl; [|discriminate].
  intros H2. split.
  - set (P := fun a : DiGraph => forall n, n ∈ nodes a ->
                (exists f, scanned root_path tree f /\ n = mk_label f) \/
                (startswith "lean_core." n = true /\ exists v, edge a n v)).
    assert (forall a a', graph_le a a' -> P a ->
              forall n, n ∈ nodes a ->
                (exists f, scanned root_path tree f /\ n = mk_label f) \/
                (startswith "lean_core." n = true /\ exists v, edge a' n v))
      as Hmono.
    { intros a a' [_ Hle] Ha m Hm. destruct (Ha m Hm) as [? | (? & v & Hv)];
        [left; assumption | right]. split; [assumption|].
      exists v. apply Hle, Hv. }
    assert (P g1) as Hg1.
    { revert H1. apply (foldlM_invariant P).
      - intros a f a' Hf Ha Hs. unfold add_file_node in Hs.
        destruct (in_excluded_category root_path f) as [[]|] eqn:Hex;
          simpl in Hs; try discriminate; injection Hs as <-; [exact Ha|].
        intros m Hm. apply add_node_nodes in Hm as [-> | Hm].
        + left. exists f. split; [split; assumption | reflexivity].
        + eapply Hmono; [apply add_node_le | exact Ha | exact Hm].
      - intros m Hm. inversion Hm. }
    revert n. change (P g). clear Hwf. revert H2 Hg1. generalize g1 g.
    intros a r Hr Ha. revert Ha Hr. apply foldlM_invariant.
    intros a0 f a' Hf Ha0 Hs. apply scan_file_return in Hs as [[Hex ->] | (Hex & Hrd & ->)];
      [exact Ha0|].
    apply foldl_invariant; [|exact Ha0].
    intros b line Hline Hb m Hm. unfold scan_line in *.
    destruct (import_re_match line) as [imported|]; [|apply Hb, Hm].
    destruct (ignored_import imported); [apply Hb, Hm|].
    apply add_edge_nodes in Hm as [-> | [-> | Hm]].
    + destruct (resolve_import_origin b imported) as [Hin | Hpre].
      * eapply Hmono; [apply add_edge_le | exact Hb | exact Hin].
      * right. split; [exact Hpre|]. exists (mk_label f).
        apply add_edge_edges. left. reflexivity.
    + left. exists f. split; [split; assumption | reflexivity].
    + eapply Hmono; [apply add_edge_le | exact Hb | exact Hm].
  - intros [(f & [Hf Hex] & ->) | (_ & v & He)].
    + destruct (foldlM_grows graph_le _ (scan_file_le root_path) _ _ _ H2)
        as [Hle _].
      apply Hle. eapply first_pass_nodes; eauto.
    + apply (Hwf _ _ He).
Qed.

Lemma parse_imports_nodes_witness :
  (exists f, scanned ["src"] tree_default f /\ "B" = mk_label f) \/
  (startswith "lean_core." "B" = true /\
   exists v, edge {| nodes := ["A.default"; "B"; "lean_core.system.io"];
                     edges := [("A.default", "B"); ("lean_core.system.io", "B")] |}
                  "B" v).
Proof.
  apply (proj1 (parse_imports_nodes ["src"] tree_default _ eq_refl "B")).
  simpl. right. left.
Defined.

(** ** The module-level graph *)

Lemma scanned_import_edge (root_path : list string) (tree : list SourceFile)
  (G : DiGraph) (f : SourceFile) (line imported : string) :
  parse_imports root_path tree = Return G ->
  scanned root_path tree f ->
  line ∈ split_lines (text f) ->
  import_re_match line = Some imported ->
  ignored_import imported = false ->
  exists g, (forall f', scanned root_path tree f' -> mk_label f' ∈ nodes g) /\
            edge G (resolve_import g imported) (mk_label f).
Proof.
  unfold parse_imports.
  destruct (foldlM (add_file_node root_path) empty_graph (glob_lean tree))
    as [g1|e] eqn:H1; simpl; [|discriminate].
  intros H2 [Hf Hex] Hline Hm Hi.
  destruct (foldlM_visits graph_le _ (scan_file_le root_path) _ _ _ _ H2 Hf)
    as (a' & a'' & Hle1 & Hbody & Hle2).
  apply scan_file_return in Hbody as [[Hex' _] | (_ & Hrd & ->)]; [congruence|].
  destruct (foldl_visits graph_le _ (scan_line_le (mk_label f)) _ a' _ Hline)
    as (g & Hle3 & Hle4).
  exists g. split.
  - intros f' [Hf' Hex']. apply Hle3, Hle1. eapply first_pass_nodes; eauto.
  - apply Hle2, Hle4. apply (scan_line_edge _ _ _ _ Hm Hi). left. reflexivity.
Qed.

(** X7. The module-level graph exists exactly when the graph of the builder
    is acyclic: with a cycle the reduction raises [NetworkXError] and the
    script stops. In particular a scanned file that imports itself stops the
    script. *)
Theorem module_graph_cycles (root_path : list string) (tree : list SourceFile)
  (g : DiGraph) :
  parse_imports root_path tree = Return g ->
  (acyclic g -> exists tr, module_graph root_path tree = Return tr) /\
  (~ acyclic g -> module_graph root_path tree = Raise NetworkXError) /\
  (forall f line,
     scanned root_path tree f -> line ∈ split_lines (text f) ->
     import_re_match line = Some (mk_label f) ->
     ignored_import (mk_label f) = false ->
     module_graph root_path tree = Raise NetworkXError).
Proof.
  intros Hg. unfold module_graph. rewrite Hg. simpl. split; [|split].
  - apply transitive_reduction_returns.
  - apply transitive_reduction_raises.
  - intros f line Hf Hline Hm Hi. apply transitive_reduction_raises.
    destruct (scanned_import_edge _ _ _ _ _ _ Hg Hf Hline Hm Hi)
      as (g0 & Hnodes & He).
    rewrite (proj1 (resolve_import_cases g0 (mk_label f)) (Hnodes f Hf)) in He.
    intros Hac. apply (Hac (mk_label f)). apply tc_once, He.
Qed.

Lemma module_graph_cycles_witness :
  module_graph ["src"] tree_self_import = Raise NetworkXError.
Proof.
  apply (proj2 (proj2 (module_graph_cycles ["src"] tree_self_import _ eq_refl))
           {| rel := ["A.lean"]; read_text := Return ("import A" +:+ lf) |} "import A").
  - split; [vm_compute; left | reflexivity].
  - vm_compute. left.
  - reflexivity.
  - reflexivity.
Defined.

(** X8. When the module-level graph exists it has the nodes of the graph of
    the builder, its edges are edges of that graph, and it is acyclic, so no
    file is at once before and after another. *)
Theorem module_graph_subgraph (root_path : list string) (tree : list SourceFile)
  (tr : DiGraph) :
  module_graph root_path tree = Return tr ->
  exists g,
    parse_imports root_path tree = Return g /\
    nodes tr = nodes g /\
    (forall u v, edge tr u v -> edge g u v) /\
    acyclic tr /\
    (forall u v, reaches tr u v -> ~ reaches tr v u).
Proof.
  unfold module_graph.
  destruct (parse_imports root_path tree) as [g|e] eqn:Hg; simpl; [|discriminate].
  intros Htr. exists g. split; [reflexivity|].
  pose proof (parse_imports_wf _ _ _ Hg) as Hwf.
  assert (acyclic g) as Hac.
  { apply is_directed_acyclic_graph_spec. unfold transitive_reduction in Htr.
    destruct (is_directed_acyclic_graph g); [reflexivity | discriminate]. }
  assert (acyclic tr) as Hac'.
  { intros u Hu. apply (Hac u), (reduction_reaches_sound g tr Hwf Hac Htr), Hu. }
  split; [exact (reduction_nodes g tr Htr)|]. split; [|split; [exact Hac'|]].
  - intros u v He. apply (reduction_edge g tr Hwf Hac Htr), He.
  - intros u v Huv Hvu. apply (Hac' u). eapply tc_transitive; eauto.
Qed.

Lemma module_graph_subgraph_witness :
  exists g,
    parse_imports ["src"] tree_abc = Return g /\
    nodes reduced_abc = nodes g /\
    (forall u v, edge reduced_abc u v -> edge g u v) /\
    acyclic reduced_abc /\
    (forall u v, reaches reduced_abc u v -> ~ reaches reduced_abc v u).
Proof. apply (module_graph_subgraph ["src"] tree_abc reduced_abc). reflexivity. Defined.

(** ** The aggregated data: content, errors, counts *)

Section AggregatorMore.
Context (count_lines : string -> result (option Z)).
Context (labels_of : Z -> result (list Label)).
Context (history : result (gmap string (list FileHistoryEntry))).
Context (graph : DiGraph).

Lemma needs_labels_dec (e : PortStatusEntry) :
  (exists pr, needs_labels e pr) \/ (forall pr, ~ needs_labels e pr).
Proof.
  unfold needs_labels. destruct (ported e); [right; intros pr [? _]; discriminate|].
  destruct (mathlib4_pr e) as [pr|]; [|right; intros pr (_ & ? & _); discriminate].
  destruct (decide (pr = 0)) as [-> | Hne].
  - right. intros pr (_ & Heq & Hne). congruence.
  - left. exists pr. auto.
Qed.

(** One round of the first loop: the entry that is stored. *)
Lemma new_file_data_return (data data' : gmap string Mathlib3FileData)
  (item : string * PortStatusEntry) :
  new_file_data count_lines labels_of data item = Return data' ->
  exists d,
    data' = <[item.1 := d]> data /\
    status d = item.2 /\ mathlib3_import d = split_on dot item.1 /\
    count_lines item.1 = Return (lines d) /\
    (dependents d = None /\ dependencies d = None) /\
    ((exists pr, needs_labels item.2 pr /\ labels_of pr = Return (labels d)) \/
     ((forall pr, ~ needs_labels item.2 pr) /\ labels d = [])).
Proof.
  unfold new_file_data, needs_labels. destruct item as [k e]. simpl.
  destruct (count_lines k) as [n|err0]; simpl; [|discriminate].
  destruct (mathlib4_pr e) as [pr|] eqn:Hpr.
  - destruct (ported e) eqn:Hp; simpl.
    + intros H. injection H as <-. eexists. split; [reflexivity|].
      simpl. repeat split. right. split; [|reflexivity].
      intros pr' [? _]. discriminate.
    + destruct (Z.eqb_spec pr 0) as [-> | Hne]; simpl.
      * intros H. injection H as <-. eexists. split; [reflexivity|].
        simpl. repeat split. right. split; [|reflexivity].
        intros pr' (_ & Heq & Hne). congruence.
      * destruct (labels_of pr) as [lbls|err] eqn:Hl; simpl; [|discriminate].
        intros H. injection H as <-. eexists. split; [reflexivity|].
        simpl. repeat split. left. exists pr. auto.
  - simpl. intros H. injection H as <-. eexists. split; [reflexivity|].
    simpl. repeat split. right. split; [|reflexivity].
    intros pr' (_ & ? & _). discriminate.
Qed.

(** One round of the first loop fails when the line count does, or else when
    the fetch of the labels it needs does. *)
Lemma new_file_data_raise (data : gmap string Mathlib3FileData)
  (item : string * PortStatusEntry) (err : exn) :
  new_file_data count_lines labels_of data item = Raise err ->
  count_lines item.1 = Raise err \/
  exists pr, needs_labels item.2 pr /\ labels_of pr = Raise err.
Proof.
  unfold new_file_data, needs_labels. destruct item as [k e]. simpl.
  destruct (count_lines k) as [n|err0]; simpl;
    [|intros H; injection H as ->; auto].
  destruct (mathlib4_pr e) as [pr|] eqn:Hpr; simpl; [|discriminate].
  destruct (ported e) eqn:Hp; simpl; [discriminate|].
  destruct (Z.eqb_spec pr 0) as [-> | Hne]; simpl; [discriminate|].
  destruct (labels_of pr) as [lbls|err'] eqn:Hl; simpl; [discriminate|].
  intros H. injection H as ->. right. exists pr. auto.
Qed.

(** The first loop: every entry of the result is the one stored for an item
    of [port_status], or was there before. *)
Lemma first_loop_spec (port_status : list (string * PortStatusEntry)) :
  forall acc data0 : gmap string Mathlib3FileData,
  foldlM (new_file_data count_lines labels_of) acc port_status = Return data0 ->
  (forall k : string,
     is_Some (data0 !! k) <-> is_Some (acc !! k) \/ k ∈ port_status.*1) /\
  (forall (k : string) (d : Mathlib3FileData), data0 !! k = Some d ->
     acc !! k = Some d \/
     exists e, (k, e) ∈ port_status /\
       status d = e /\ mathlib3_import d = split_on dot k /\
       count_lines k = Return (lines d) /\
       (dependents d = None /\ dependencies d = None) /\
       ((exists pr, needs_labels e pr /\ labels_of pr = Return (labels d)) \/
        ((forall pr, ~ needs_labels e pr) /\ labels d = []))).
Proof.
  induction port_status as [|[k0 e0] ps IH]; intros acc data0 H; simpl in H.
  - injection H as <-. split.
    + intros k. split; [auto|]. intros [? | Hk]; [assumption | inversion Hk].
    + auto.
  - destruct (new_file_data count_lines labels_of acc (k0, e0)) as [acc'|err]
      eqn:Hn; simpl in H; [|discriminate].
    apply new_file_data_return in Hn as (d0 & -> & Hst & Himp & Hli & Hfp & Hlb).
    simpl in *. destruct (IH _ _ H) as [IHdom IHent]. split.
    + intros k. rewrite IHdom, elem_of_cons.
      destruct (decide (k0 = k)) as [-> | Hne].
      * rewrite lookup_insert_eq. split; [auto | intros _; left; eauto].
      * rewrite lookup_insert_ne by exact Hne. split.
        -- intros [? | ?]; auto.
        -- intros [? | [? | ?]]; auto. congruence.
    + intros k d Hd. destruct (IHent k d Hd) as [Hacc | (e & Hin & Hrest)].
      * destruct (decide (k0 = k)) as [-> | Hne].
        -- rewrite lookup_insert_eq in Hacc. injection Hacc as <-.
           right. exists e0. split; [left|]. auto 10.
        -- rewrite lookup_insert_ne in Hacc by exact Hne. left. exact Hacc.
      * right. exists e. split; [right; exact Hin | exact Hrest].
Qed.

Lemma get_data_unfold (port_status : list (string * PortStatusEntry))
  (data : gmap string Mathlib3FileData) :
  get_data count_lines labels_of history graph port_status = Return data ->
  exists (data0 : gmap string Mathlib3FileData)
         (h : gmap string (list FileHistoryEntry)),
    foldlM (new_file_data count_lines labels_of) ∅ port_status = Return data0 /\
    history = Return h /\
    (forall k : string, is_Some (data !! k) <-> is_Some (data0 !! k)) /\
    forall k : string,
      data !! k = (fun d => attach_history h k
                              (attach_graph_data graph data0 k d)) <$> data0 !! k.
Proof.
  unfold get_data.
  destruct (foldlM (new_file_data count_lines labels_of) ∅ port_status)
    as [data0|e]; simpl; [|discriminate].
  destruct history as [h|e]; simpl; [|discriminate].
  intros H. injection H as <-. exists data0, h.
  split; [reflexivity|]. split; [reflexivity|].
  assert (forall k : string,
            map_imap (fun k d => Some (attach_history h k d))
              (map_imap (fun k d => Some (attach_graph_data graph data0 k d)) data0)
              !! k
            = (fun d => attach_history h k
                          (attach_graph_data graph data0 k d)) <$> data0 !! k)
    as Hlook.
  { intros k. rewrite !map_lookup_imap. destruct (data0 !! k); reflexivity. }
  split; [|exact Hlook].
  intros k. rewrite Hlook. apply fmap_is_Some.
Qed.

(** Writing the forward-port data of entries changes no key and no other
    field. *)
Lemma after_writes_lookup (writes : list (string * ForwardPortInfo)) :
  forall (data : gmap string Mathlib3FileData) (k : string),
    (is_Some (after_writes writes data !! k) <-> is_Some (data !! k)) /\
    forall d', after_writes writes data !! k = Some d' ->
      exists d, data !! k = Some d /\
        mathlib3_import d' = mathlib3_import d /\ status d' = status d /\
        lines d' = lines d /\ mathlib4_history d' = mathlib4_history d.
Proof.
  unfold after_writes.
  induction writes as [|[k0 info] ws IH]; intros data k; simpl.
  - split; [reflexivity|]. intros d' Hd'. exists d'. auto.
  - destruct (IH (set_forward_port k0 info data) k) as [IHs IHd].
    unfold set_forward_port in *. rewrite lookup_alter in IHs, IHd.
    destruct (decide (k0 = k)) as [-> | Hne].
    + split; [rewrite IHs; apply fmap_is_Some|].
      intros d' Hd'. destruct (IHd d' Hd') as (d1 & Hd1 & Heqs).
      destruct (data !! k) as [d|]; [|discriminate].
      simpl in Hd1. injection Hd1 as <-. exists d. auto.
    + split; [exact IHs | exact IHd].
Qed.

(** The cache, at any time, is empty or holds the dictionary that the body
    of [get_data] built, with forward-port data written into it. *)
Lemma cache_reachable (port_status : list (string * PortStatusEntry))
  (cache : option (gmap string Mathlib3FileData)) :
  rtc (cache_step count_lines labels_of history graph port_status) None cache ->
  cache = None \/
  exists data0 writes,
    get_data count_lines labels_of history graph port_status = Return data0 /\
    cache = Some (after_writes writes data0).
Proof.
  revert cache. apply rtc_ind_r; [left; reflexivity|].
  intros c1 c2 _ Hs IH.
  destruct Hs as [c data c' Hcall | data k info Hk].
  - destruct c as [d|]; simpl in Hcall.
    + injection Hcall as _ <-. assumption.
    + destruct (get_data count_lines labels_of history graph port_status)
        as [data0|err] eqn:Hg; simpl in Hcall; [|discriminate].
      injection Hcall as _ <-. right. exists data0, []. auto.
  - destruct IH as [? | (data0 & writes & Hg & Hc)]; [discriminate|].
    injection Hc as ->. right. exists data0, (writes ++ [(k, info)])%list.
    split; [exact Hg|]. unfold after_writes. rewrite foldl_app. reflexivity.
Qed.

(** X9. At every call, the first and the later ones that find the
    dictionary in the cache with forward-port data written into it,
    [get_data] returns one entry for every key of [port_status] and no
    other; the entry carries the status of that key, the line count found for
    its file, its history (empty when the history has none) and an import
    path whose pieces join back to the key. *)
Theorem get_data_entries (port_status : list (string * PortStatusEntry))
  (cache cache' : option (gmap string Mathlib3FileData))
  (data : gmap string Mathlib3FileData) :
  rtc (cache_step count_lines labels_of history graph port_status) None cache ->
  get_data_cached count_lines labels_of history graph port_status cache
    = Return (data, cache') ->
  (forall k : string, is_Some (data !! k) <-> k ∈ port_status.*1) /\
  (forall (k : string) (d : Mathlib3FileData),
     data !! k = Some d ->
     (exists e, (k, e) ∈ port_status /\ status d = e) /\
     count_lines k = Return (lines d) /\
     (exists h, history = Return h /\
                mathlib4_history d = default [] (h !! k)) /\
     join_dot (mathlib3_import d) = k).
Proof.
  intros Hreach Hcall.
  assert (exists data0 writes,
            get_data count_lines labels_of history graph port_status
              = Return data0 /\
            data = after_writes writes data0) as (data0 & writes & Hdata & ->).
  { destruct (cache_reachable _ _ Hreach) as [-> | (data0 & writes & Hg & ->)];
      simpl in Hcall.
    - destruct (get_data count_lines labels_of history graph port_status)
        as [data0|err]; simpl in Hcall; [|discriminate].
      injection Hcall as <- _. exists data0, []. auto.
    - injection Hcall as <- _. eauto. }
  clear Hreach Hcall.
  destruct (get_data_unfold _ _ Hdata) as (data1 & h & H1 & Hh & Hsome & Hlook).
  destruct (first_loop_spec _ _ _ H1) as [Hdom Hent].
  split.
  - intros k. rewrite (proj1 (after_writes_lookup writes data0 k)).
    rewrite Hlook, fmap_is_Some, Hdom, lookup_empty.
    split; [intros [[? ?] | ?]; [discriminate | assumption] | auto].
  - intros k d' Hd'.
    destruct (proj2 (after_writes_lookup writes data0 k) d' Hd')
      as (d & Hd & -> & -> & -> & ->).
    rewrite Hlook in Hd.
    destruct (data1 !! k) as [d1|] eqn:Hd1; [|discriminate].
    simpl in Hd. injection Hd as <-.
    destruct (Hent k d1 Hd1) as [Habs | (e & Hin & Hst & Himp & Hli & _)];
      [rewrite lookup_empty in Habs; discriminate|].
    unfold attach_graph_data.
    destruct (decide (k ∈ nodes graph)); simpl;
      (split; [exists e; auto|]); (split; [exact Hli|]);
      (split; [exists h; auto|]); rewrite Himp; apply join_dot_split_on.
Qed.

(** X10. The labels of an entry: a ported file, a file without a
    pull-request id and a file with the id 0 have none and cause no fetch; for
    every other file the labels are what the fetch for its pull request
    returned. *)
Theorem get_data_labels (port_status : list (string * PortStatusEntry))
  (data : gmap string Mathlib3FileData) (k : string) (d : Mathlib3FileData) :
  get_data count_lines labels_of history graph port_status = Return data ->
  data !! k = Some d ->
  (ported (status d) = true -> labels d = []) /\
  (mathlib4_pr (status d) = None \/ mathlib4_pr (status d) = Some 0 ->
   labels d = []) /\
  (forall pr, needs_labels (status d) pr -> labels_of pr = Return (labels d)).
Proof.
  intros Hdata Hd.
  destruct (get_data_unfold _ _ Hdata) as (data1 & h & H1 & _ & _ & Hlook).
  destruct (first_loop_spec _ _ _ H1) as [_ Hent].
  rewrite Hlook in Hd. destruct (data1 !! k) as [d1|] eqn:Hd1; [|discriminate].
  simpl in Hd. injection Hd as <-.
  destruct (Hent k d1 Hd1) as [Habs | (e & _ & Hst & _ & _ & _ & Hlb)];
    [rewrite lookup_empty in Habs; discriminate|].
  assert (status (attach_history h k (attach_graph_data graph data1 k d1))
          = e /\
          labels (attach_history h k (attach_graph_data graph data1 k d1))
          = labels d1) as [-> ->].
  { unfold attach_graph_data. destruct (decide (k ∈ nodes graph)); simpl; auto. }
  unfold needs_labels in *.
  destruct Hlb as [(pr & (Hp & Hpr & Hne) & Hl) | [Hno Hl]].
  - split; [congruence|]. split; [intros [? | ?]; congruence|].
    intros pr' (_ & Hpr' & _). congruence.
  - split; [auto|]. split; [auto|]. intros pr Hn. destruct (Hno pr Hn).
Qed.

(** [get_data] returns when nothing it calls fails. *)
Lemma get_data_returns (port_status : list (string * PortStatusEntry)) :
  (forall k e, (k, e) ∈ port_status -> exists n, count_lines k = Return n) ->
  (forall k e pr, (k, e) ∈ port_status -> needs_labels e pr ->
                  exists lbls, labels_of pr = Return lbls) ->
  (exists h, history = Return h) ->
  exists data, get_data count_lines labels_of history graph port_status
               = Return data.
Proof.
  intros Hlines Hfetch [h Hh]. unfold get_data.
  destruct (foldlM_total (new_file_data count_lines labels_of) port_status)
    with (a := (∅ : gmap string Mathlib3FileData)) as [data0 ->];
    [|rewrite Hh; simpl; eauto].
  intros a [k e] Hin.
  destruct (new_file_data count_lines labels_of a (k, e)) as [a'|err] eqn:Hn;
    [eauto|].
  apply new_file_data_raise in Hn as [Hr | (pr & Hneed & Hr)]; simpl in *.
  - destruct (Hlines k e Hin) as [n Hn]. congruence.
  - destruct (Hfetch k e pr Hin Hneed) as [lbls Hl]. congruence.
Qed.

(** What failed when [get_data] fails. *)
Lemma get_data_raise_cases (port_status : list (string * PortStatusEntry))
  (err : exn) :
  get_data count_lines labels_of history graph port_status = Raise err ->
  (exists k e, (k, e) ∈ port_status /\ count_lines k = Raise err) \/
  (exists k e pr, (k, e) ∈ port_status /\ needs_labels e pr /\
                  labels_of pr = Raise err) \/
  history = Raise err.
Proof.
  unfold get_data.
  destruct (foldlM (new_file_data count_lines labels_of) ∅ port_status)
    as [data0|e0] eqn:H1; simpl.
  - destruct history as [h|eh]; simpl; [discriminate|].
    intros H. injection H as ->. auto.
  - intros H. injection H as ->.
    apply foldlM_raise in H1 as (a & [k e] & Hin & Hr).
    apply new_file_data_raise in Hr as [Hr | (pr & Hneed & Hl)]; simpl in *.
    + left. eauto.
    + right. left. eauto 10.
Qed.

(** When [get_data] returns, the lines of every key were counted. *)
Lemma get_data_counted (port_status : list (string * PortStatusEntry))
  (data : gmap string Mathlib3FileData) (k : string) (e : PortStatusEntry) :
  get_data count_lines labels_of history graph port_status = Return data ->
  (k, e) ∈ port_status -> exists n, count_lines k = Return n.
Proof.
  intros Hdata Hin.
  destruct (get_data_unfold _ _ Hdata) as (data1 & h & H1 & _ & _ & _).
  destruct (first_loop_spec _ _ _ H1) as [Hdom Hent].
  destruct (proj2 (Hdom k)) as [d Hd].
  { right. apply list_elem_of_fmap. exists (k, e). auto. }
  destruct (Hent k d Hd) as [Habs | (e' & _ & _ & _ & Hli & _)];
    [rewrite lookup_empty in Habs; discriminate | eauto].
Qed.

(** The shape of every entry once the three loops have run; [data0] is the
    dictionary after the first loop, which has the same keys. *)
Lemma get_data_shape (port_status : list (string * PortStatusEntry))
  (data : gmap string Mathlib3FileData) :
  get_data count_lines labels_of history graph port_status = Return data ->
  exists data0 : gmap string Mathlib3FileData,
    (forall j : string, is_Some (data !! j) <-> is_Some (data0 !! j)) /\
    forall (k : string) (d : Mathlib3FileData), data !! k = Some d ->
      join_dot (mathlib3_import d) = k /\
      (k ∈ nodes graph ->
       dependents d = Some (tracked data0 (descendants graph k)) /\
       dependencies d = Some (tracked data0 (ancestors graph k))) /\
      (k ∉ nodes graph -> dependents d = None /\ dependencies d = None).
Proof.
  intros Hdata.
  destruct (get_data_unfold _ _ Hdata) as (data1 & h & H1 & _ & Hsome & Hlook).
  exists data1. split; [exact Hsome|]. intros k d Hd.
  destruct (first_loop_spec _ _ _ H1) as [_ Hent].
  rewrite Hlook in Hd. destruct (data1 !! k) as [d1|] eqn:Hd1; [|discriminate].
  simpl in Hd. injection Hd as <-.
  destruct (Hent k d1 Hd1)
    as [Habs | (e & _ & _ & Himp & _ & [Hdents Hdeps] & _)];
    [rewrite lookup_empty in Habs; discriminate|].
  unfold attach_graph_data.
  destruct (decide (k ∈ nodes graph)) as [Hin | Hnin]; simpl;
    rewrite Himp, join_dot_split_on; (split; [reflexivity|]);
    (split; [intros ?|intros ?]); try contradiction; auto.
Qed.

(** X12. A tracked file has dependency data exactly when its key is a node
    of the graph; a tracked file that is not a node has no counts and the
    largest sort key. *)
Theorem get_data_graph_membership (port_status : list (string * PortStatusEntry))
  (data : gmap string Mathlib3FileData) (k : string) (d : Mathlib3FileData) :
  get_data count_lines labels_of history graph port_status = Return data ->
  data !! k = Some d ->
  (k ∈ nodes graph <-> is_Some (dependencies d)) /\
  (k ∈ nodes graph <-> is_Some (dependents d)) /\
  (k ∉ nodes graph ->
   dep_counts data d = None /\ dep_counts_sort_key data d = sys_maxsize).
Proof.
  intros Hdata Hd.
  destruct (get_data_shape _ _ Hdata) as (data0 & _ & Hshape).
  destruct (Hshape k d Hd) as (_ & Hin & Hout).
  unfold dep_counts_sort_key, dep_counts.
  destruct (decide (k ∈ nodes graph)) as [Hk | Hk].
  - destruct (Hin Hk) as [-> ->].
    split; [split; [intros _; eexists; reflexivity | intros _; exact Hk]|].
    split; [split; [intros _; eexists; reflexivity | intros _; exact Hk]|].
    contradiction.
  - destruct (Hout Hk) as [-> ->]. split; [|split; [|auto]];
      (split; [contradiction | intros [? ?]; discriminate]).
Qed.

Lemma count_state_sum (data : gmap string Mathlib3FileData) (deps : list string) :
  (forall j : string, j ∈ deps -> is_Some (data !! j)) ->
  count_state data deps UNPORTED + count_state data deps IN_PROGRESS
  + count_state data deps PORTED = Z.of_nat (length deps).
Proof.
  unfold count_state. induction deps as [|j deps IH]; intros Hall; [reflexivity|].
  assert (is_Some (data !! j)) as [dj Hj] by (apply Hall; left).
  specialize (IH (fun x Hx => Hall x (list_elem_of_further _ _ _ Hx))).
  assert (forall s, ref_has_state data s j = bool_decide (state dj = s)) as Hr.
  { intros s. unfold ref_has_state. rewrite Hj. simpl.
    apply bool_decide_ext. split; congruence. }
  simpl List.filter. rewrite !Hr.
  destruct (state dj); simpl; lia.
Qed.

(** X13. The dependencies that [get_data] records for a file are tracked
    files other than the file itself, each listed once, and the three counts
    of [dep_counts] add up to their number. *)
Theorem get_data_dep_counts (port_status : list (string * PortStatusEntry))
  (data : gmap string Mathlib3FileData) (k : string) (d : Mathlib3FileData)
  (deps : list string) :
  get_data count_lines labels_of history graph port_status = Return data ->
  data !! k = Some d ->
  dependencies d = Some deps ->
  NoDup deps /\
  (forall j : string, j ∈ deps -> j <> k /\ is_Some (data !! j)) /\
  exists u i p, dep_counts data d = Some (u, i, p) /\
                u + i + p = Z.of_nat (length deps).
Proof.
  intros Hdata Hd Hdeps.
  destruct (get_data_shape _ _ Hdata) as (data1 & Hsome & Hshape).
  destruct (Hshape k d Hd) as (_ & Hin & Hout).
  destruct (decide (k ∈ nodes graph)) as [Hk | Hk];
    [|destruct (Hout Hk) as [_ Hn]; congruence].
  destruct (Hin Hk) as [_ Heq]. rewrite Heq in Hdeps. injection Hdeps as <-.
  assert (forall j : string, j ∈ tracked data1 (ancestors graph k) ->
                             j <> k /\ is_Some (data !! j)) as Hall.
  { intros j Hj. apply elem_of_tracked in Hj as [Hs Hj].
    apply elem_of_ancestors in Hj as [Hne _]. split; [exact Hne|].
    apply Hsome, Hs. }
  split; [|split; [exact Hall|]].
  - unfold tracked. apply NoDup_filter. unfold ancestors, descendants.
    apply NoDup_remove_dups.
  - unfold dep_counts. rewrite Heq.
    eexists _, _, _. split; [reflexivity|].
    apply count_state_sum. intros j Hj. apply Hall, Hj.
Qed.

(** X14. Dependencies are transitive: a dependency of a dependency of a file
    is a dependency of the file, unless it is the file itself; and in an
    acyclic graph no file is at once a dependency and a dependent of
    another. *)
Theorem get_data_dependencies_transitive
  (port_status : list (string * PortStatusEntry))
  (data : gmap string Mathlib3FileData) (u v w : string)
  (du dv : Mathlib3FileData) (deps_u deps_v dents_u : list string) :
  get_data count_lines labels_of history graph port_status = Return data ->
  data !! u = Some du -> data !! v = Some dv ->
  dependencies du = Some deps_u -> dependencies dv = Some deps_v ->
  dependents du = Some dents_u ->
  (v ∈ deps_u -> w ∈ deps_v -> w <> u -> w ∈ deps_u) /\
  (acyclic graph -> v ∈ deps_u -> v ∉ dents_u).
Proof.
  intros Hdata Hu Hv Hdu Hdv Htu.
  destruct (get_data_shape _ _ Hdata) as (data1 & Hsome & Hshape).
  assert (forall k d deps, data !! k = Some d -> dependencies d = Some deps ->
            deps = tracked data1 (ancestors graph k)) as Hdeps.
  { intros k d deps Hd Hdd. destruct (Hshape k d Hd) as (_ & Hin & Hout).
    destruct (decide (k ∈ nodes graph)) as [Hk | Hk];
      [|destruct (Hout Hk) as [_ Hn]; congruence].
    destruct (Hin Hk) as [_ Heq]. congruence. }
  assert (dents_u = tracked data1 (descendants graph u)) as ->.
  { destruct (Hshape u du Hu) as (_ & Hin & Hout).
    destruct (decide (u ∈ nodes graph)) as [Hk | Hk];
      [|destruct (Hout Hk) as [Hn _]; congruence].
    destruct (Hin Hk) as [Heq _]. congruence. }
  rewrite (Hdeps u du deps_u Hu Hdu), (Hdeps v dv deps_v Hv Hdv).
  rewrite !elem_of_tracked, !elem_of_ancestors, elem_of_descendants. split.
  - intros (_ & _ & Hvu) (Hw & _ & Hwv) Hne.
    split; [exact Hw|]. split; [exact Hne|]. eapply tc_transitive; eauto.
  - intros Hac (_ & _ & Hvu) (_ & _ & Huv).
    apply (Hac u). eapply tc_transitive; eauto.
Qed.
End AggregatorMore.

Lemma with_suffix_lean_cases (p : PurePath) :
  (segments p = [] /\ with_suffix_lean p = Raise ValueError) \/
  (segments p <> [] /\ exists q, with_suffix_lean p = Return q).
Proof.
  unfold with_suffix_lean. destruct (segments p) as [|x l] eqn:Hs.
  - left. auto.
  - right. split; [discriminate|].
    destruct (last (x :: l)) as [name|] eqn:Hl; [eauto|].
    apply last_None in Hl. discriminate.
Qed.

(** X11. [get_data] fails only in these ways, each with the exception of
    what failed: with [ValueError] for a key whose path has no name, such as
    the empty key and the key made of one dot, for which the path of line
    291 cannot be built; when the reading of a source fails otherwise than
    with [IOError]; when a fetch of labels that it needs fails; when the
    reading of the history fails. When none of these fails [get_data]
    returns, and it fails whenever a key has a path without a name. *)
Theorem get_data_errors (read_line_count : PurePath -> result (option Z))
  (labels_of : Z -> result (list Label))
  (history : result (gmap string (list FileHistoryEntry))) (graph : DiGraph)
  (port_status : list (string * PortStatusEntry)) :
  ((forall k e, (k, e) ∈ port_status ->
      exists p n,
        with_suffix_lean (Path (split_on dot k)) = Return p /\
        read_line_count (joinpath (joinpath (Path mathlib_dir) (Path ["src"])) p)
        = Return n) ->
   (forall k e pr, (k, e) ∈ port_status -> needs_labels e pr ->
                   exists lbls, labels_of pr = Return lbls) ->
   (exists h, history = Return h) ->
   exists data, get_data (source_line_count read_line_count) labels_of history
                  graph port_status = Return data) /\
  (forall err,
     get_data (source_line_count read_line_count) labels_of history graph
       port_status = Raise err ->
     (exists k e, (k, e) ∈ port_status /\
                  segments (Path (split_on dot k)) = [] /\ err = ValueError) \/
     (exists k e p, (k, e) ∈ port_status /\
        with_suffix_lean (Path (split_on dot k)) = Return p /\
        read_line_count (joinpath (joinpath (Path mathlib_dir) (Path ["src"])) p)
        = Raise err) \/
     (exists k e pr, (k, e) ∈ port_status /\ needs_labels e pr /\
                     labels_of pr = Raise err) \/
     history = Raise err) /\
  (forall k e, (k, e) ∈ port_status ->
     segments (Path (split_on dot k)) = [] ->
     exists err, get_data (source_line_count read_line_count) labels_of history
                   graph port_status = Raise err) /\
  segments (Path (split_on dot "")) = [] /\
  segments (Path (split_on dot ".")) = [].
Proof.
  split; [|split; [|split; [|split; reflexivity]]].
  - intros Hlines Hfetch Hh. apply get_data_returns; [|exact Hfetch|exact Hh].
    intros k e Hin. destruct (Hlines k e Hin) as (p & n & Hp & Hn).
    exists n. unfold source_line_count. rewrite Hp. exact Hn.
  - intros err H.
    apply get_data_raise_cases in H
      as [(k & e & Hin & Hr) | [Hr | Hr]]; [|auto|auto].
    unfold source_line_count in Hr.
    destruct (with_suffix_lean_cases (Path (split_on dot k)))
      as [[Hs Hw] | [_ [q Hw]]]; rewrite Hw in Hr; simpl in Hr.
    + injection Hr as <-. left. eauto.
    + right. left. eauto 10.
  - intros k e Hin Hs.
    destruct (get_data (source_line_count read_line_count) labels_of history
                graph port_status) as [data|err] eqn:Hg; [|eauto].
    destruct (get_data_counted _ _ _ _ _ _ _ _ Hg Hin) as [n Hn].
    unfold source_line_count in Hn.
    destruct (with_suffix_lean_cases (Path (split_on dot k)))
      as [[_ Hw] | [Hne _]]; [|contradiction].
    rewrite Hw in Hn. discriminate.
Qed.

Lemma get_data_entries_witness :
  get_data no_lines no_labels no_history reduced_abc abc_port_status
    = Return data_abc /\
  rtc (cache_step no_lines no_labels no_history reduced_abc abc_port_status)
      None (Some (set_forward_port "A" toy_forward_port data_abc)) /\
  forall k : string,
    is_Some (set_forward_port "A" toy_forward_port data_abc !! k)
    <-> k ∈ abc_port_status.*1.
Proof.
  assert (rtc (cache_step no_lines no_labels no_history reduced_abc
                 abc_port_status)
              None
              (Some (set_forward_port "A" toy_forward_port data_abc)))
    as Hreach.
  { eapply rtc_l; [apply (cache_call _ _ _ _ _ None data_abc); reflexivity|].
    apply rtc_once, cache_write. vm_compute. eauto. }
  split; [reflexivity|]. split; [exact Hreach|].
  apply (proj1 (get_data_entries no_lines no_labels no_history reduced_abc
                  abc_port_status _ _ _ Hreach eq_refl)).
Defined.

Lemma get_data_labels_witness :
  exists data d,
    get_data no_lines no_labels no_history reduced_abc abc_port_status = Return data /\
    data !! "A" = Some d /\ labels d = [].
Proof.
  eexists _, _. split; [reflexivity|]. split; [reflexivity|].
  apply (proj1 (get_data_labels no_lines no_labels no_history reduced_abc
                  abc_port_status _ "A" _ eq_refl eq_refl)).
  reflexivity.
Defined.

Lemma get_data_errors_witness :
  (exists data,
     get_data (source_line_count no_file) no_labels no_history reduced_abc
       abc_port_status = Return data) /\
  (exists err,
     get_data (source_line_count no_file) no_labels no_history reduced_abc
       port_status_dot = Raise err) /\
  ((exists k e, (k, e) ∈ abc_port_status /\
                segments (Path (split_on dot k)) = [] /\
                ValueError = ValueError) \/
   (exists k e p, (k, e) ∈ abc_port_status /\
      with_suffix_lean (Path (split_on dot k)) = Return p /\
      bad_text (joinpath (joinpath (Path mathlib_dir) (Path ["src"])) p)
      = Raise ValueError) \/
   (exists k e pr, (k, e) ∈ abc_port_status /\ needs_labels e pr /\
                   no_labels pr = Raise ValueError) \/
   no_history = Raise ValueError).
Proof.
  split; [|split].
  - apply (proj1 (get_data_errors no_file no_labels no_history reduced_abc
                    abc_port_status)).
    + intros k e Hin. unfold abc_port_status in Hin.
      repeat (apply elem_of_cons in Hin as [Heq | Hin];
              [injection Heq as -> _; eexists; exists None;
               split; reflexivity|]).
      inversion Hin.
    + intros k e pr _ _. exists []. reflexivity.
    + exists ∅. reflexivity.
  - apply (proj1 (proj2 (proj2 (get_data_errors no_file no_labels no_history
                                  reduced_abc port_status_dot)))
             "." (entry false None None)).
    + right. left.
    + reflexivity.
  - apply (proj1 (proj2 (get_data_errors bad_text no_labels no_history
                           reduced_abc abc_port_status)) ValueError eq_refl).
Defined.

Lemma get_data_graph_membership_witness :
  exists data d,
    get_data no_lines no_labels no_history graph_abc
      (("D", entry false None None) :: abc_port_status) = Return data /\
    data !! "D" = Some d /\
    dep_counts data d = None /\ dep_counts_sort_key data d = sys_maxsize.
Proof.
  eexists _, _. split; [reflexivity|]. split; [reflexivity|].
  apply (proj2 (proj2 (get_data_graph_membership no_lines no_labels no_history graph_abc
                         (("D", entry false None None) :: abc_port_status)
                         _ "D" _ eq_refl eq_refl))).
  vm_compute. intros H. repeat (inversion H as [|? ? ? H']; clear H; rename H' into H).
Defined.

Lemma get_data_dep_counts_witness :
  exists data d deps u i p,
    get_data no_lines no_labels no_history reduced_abc abc_port_status = Return data /\
    data !! "C" = Some d /\ dependencies d = Some deps /\
    dep_counts data d = Some (u, i, p) /\ u + i + p = Z.of_nat (length deps).
Proof.
  destruct (get_data_dep_counts no_lines no_labels no_history reduced_abc
              abc_port_status _ "C" _ _ eq_refl eq_refl eq_refl)
    as (_ & _ & u & i & p & Hc & Hsum).
  eexists _, _, _, u, i, p. split; [reflexivity|]. split; [reflexivity|].
  split; [reflexivity|]. split; [exact Hc | exact Hsum].
Defined.

Lemma get_data_dependencies_transitive_witness :
  exists data du deps_u,
    get_data no_lines no_labels no_history reduced_abc abc_port_status = Return data /\
    data !! "C" = Some du /\ dependencies du = Some deps_u /\ "A" ∈ deps_u.
Proof.
  eexists _, _, _. split; [reflexivity|]. split; [reflexivity|].
  split; [reflexivity|].
  apply (proj1 (get_data_dependencies_transitive no_lines no_labels no_history reduced_abc
                  abc_port_status _ "C" "B" "A" _ _ _ _ _
                  eq_refl eq_refl eq_refl eq_refl eq_refl eq_refl)).
  - vm_compute. left.
  - vm_compute. left.
  - discriminate.
Defined.

(** ** The groups of the index page *)

Lemma make_index_groups_spec (data : gmap string Mathlib3FileData) :
  (forall (s : PortState) (k : string) (d : Mathlib3FileData),
     make_index_groups data s !! k = Some d <->
     data !! k = Some d /\ state d = s) /\
  (size (make_index_groups data PORTED) + size (make_index_groups data IN_PROGRESS)
   + size (make_index_groups data UNPORTED) = size data)%nat.
Proof.
  unfold make_index_groups.
  apply (map_fold_weak_ind
           (fun (groups : PortState -> gmap string Mathlib3FileData)
                (m : gmap string Mathlib3FileData) =>
              (forall s k d, groups s !! k = Some d <->
                             m !! k = Some d /\ state d = s) /\
              (size (groups PORTED) + size (groups IN_PROGRESS)
               + size (groups UNPORTED) = size m)%nat)).
  - split.
    + intros s k d. rewrite !lookup_empty. split; [discriminate | intros [? _]; discriminate].
    + rewrite !map_size_empty. reflexivity.
  - intros i x m r Hi [IH IHsize].
    assert (forall s, r s !! i = None) as Hfresh.
    { intros s. destruct (r s !! i) as [d|] eqn:Hd; [|reflexivity].
      apply IH in Hd as [Hd _]. congruence. }
    split.
    + intros s k d. unfold add_to_group.
      destruct (decide (s = state x)) as [-> | Hne];
        destruct (decide (i = k)) as [-> | Hik];
        rewrite ?lookup_insert_eq, ?lookup_insert_ne by exact Hik.
      * split; [intros H; injection H as <-; auto | intros [H _]; exact H].
      * apply IH.
      * rewrite Hfresh. split; [discriminate|].
        intros [H Hs]. injection H as <-. congruence.
      * apply IH.
    + rewrite map_size_insert_None by exact Hi. unfold add_to_group.
      destruct (state x); simpl;
        rewrite map_size_insert_None by apply Hfresh; lia.
Qed.

(** X15. The three groups of the index page split the tracked files: a file
    is in the group of a state exactly when that is its state, so every file
    is in one group and in no second one, and the sizes of the groups add up
    to the number of tracked files. *)
Theorem make_index_partition (data : gmap string Mathlib3FileData) :
  (forall (s : PortState) (k : string) (d : Mathlib3FileData),
     make_index_groups data s !! k = Some d <->
     data !! k = Some d /\ state d = s) /\
  (forall (k : string) (d : Mathlib3FileData), data !! k = Some d ->
     exists s, make_index_groups data s !! k = Some d /\
               forall s', s' <> s -> make_index_groups data s' !! k = None) /\
  (size (make_index_groups data PORTED) + size (make_index_groups data IN_PROGRESS)
   + size (make_index_groups data UNPORTED) = size data)%nat.
Proof.
  destruct (make_index_groups_spec data) as [Hspec Hsize].
  split; [exact Hspec|]. split; [|exact Hsize].
  intros k d Hd. exists (state d). split; [apply Hspec; auto|].
  intros s' Hne. destruct (make_index_groups data s' !! k) as [d'|] eqn:Hd';
    [|reflexivity].
  apply Hspec in Hd' as [Hd' Hs]. congruence.
Qed.

Lemma make_index_partition_witness :
  exists s, make_index_groups abc_data s !! "B" = Some (file_of "B"
              (entry false (Some (mathlib_source "bbbb")) (Some 42))
              (Some ["A"]) []) /\
            forall s', s' <> s -> make_index_groups abc_data s' !! "B" = None.
Proof.
  apply (proj1 (proj2 (make_index_partition abc_data))). reflexivity.
Defined.

(** ** The subgraph of what is not yet ported *)

Section DepGraph.
Context (count_lines : string -> result (option Z)).
Context (labels_of : Z -> result (list Label)).
Context (history : result (gmap string (list FileHistoryEntry))).
Context (graph : DiGraph).

(** X16. For a tracked file that is a node of the graph, [dep_graph_data]
    returns the edges of the graph between the file and its dependencies that
    are not ported, and the states of those of them that are nodes: the file
    itself is always shown, a ported dependency never is, and no edge leads
    outside. For a tracked file that is not a node it fails, as
    [dependencies] is [None]. *)
Theorem dep_graph_data_spec (port_status : list (string * PortStatusEntry))
  (data : gmap string Mathlib3FileData) (k : string) (d : Mathlib3FileData) :
  get_data count_lines labels_of history graph port_status = Return data ->
  data !! k = Some d ->
  (k ∉ nodes graph -> dep_graph_data graph data d = Raise OtherError) /\
  (k ∈ nodes graph ->
   exists deps es ns,
     dependencies d = Some deps /\
     dep_graph_data graph data d = Return (es, ns) /\
     let kept := fun n : string =>
       n = k \/ (n ∈ deps /\ exists dn, data !! n = Some dn /\ state dn <> PORTED) in
     (forall a b, (a, b) ∈ es <-> edge graph a b /\ kept a /\ kept b) /\
     (forall n s, (n, s) ∈ ns <->
        kept n /\ n ∈ nodes graph /\ exists dn, data !! n = Some dn /\ state dn = s) /\
     (k, state d) ∈ ns /\
     (forall n, (n, PORTED) ∈ ns -> n = k)).
Proof.
  intros Hdata Hd.
  destruct (get_data_shape _ _ _ _ _ _ Hdata) as (data0 & Hsome & Hshape).
  destruct (Hshape k d Hd) as (Hname & Hin & Hout).
  unfold dep_graph_data. split.
  - intros Hk. destruct (Hout Hk) as [_ ->]. reflexivity.
  - intros Hk. destruct (Hin Hk) as [_ Hdeps]. rewrite Hdeps.
    set (deps := tracked data0 (ancestors graph k)).
    eexists deps, _, _. split; [reflexivity|]. split; [reflexivity|].
    cbv zeta.
    set (kept := fun n : string =>
           n = k \/ (n ∈ deps /\ exists dn, data !! n = Some dn /\ state dn <> PORTED)).
    assert (forall n : string,
              n ∈ remove_dups
                    (join_dot (mathlib3_import d)
                       :: omap (ref_name data)
                            (List.filter
                               (fun k0 => negb (ref_has_state data PORTED k0)) deps))
              <-> kept n) as Hkept.
    { intros n. rewrite elem_of_remove_dups, elem_of_cons, Hname.
      unfold kept. apply or_iff_compat_l.
      rewrite list_elem_of_omap. split.
      - intros (j & Hj & Hrn). apply list_elem_of_In, filter_In in Hj as [Hj Hst].
        apply list_elem_of_In in Hj. unfold ref_name in Hrn.
        destruct (data !! j) as [dj|] eqn:Hdj; [|discriminate].
        simpl in Hrn. injection Hrn as <-.
        destruct (Hshape j dj Hdj) as (-> & _ & _).
        split; [exact Hj|]. exists dj. split; [exact Hdj|].
        unfold ref_has_state in Hst. rewrite Hdj in Hst. simpl in Hst.
        apply negb_true_iff, bool_decide_eq_false in Hst. congruence.
      - intros (Hj & dn & Hdn & Hst). exists n. split.
        + apply list_elem_of_In, filter_In. split; [apply list_elem_of_In, Hj|].
          unfold ref_has_state. rewrite Hdn. simpl.
          apply negb_true_iff, bool_decide_eq_false. congruence.
        + unfold ref_name. rewrite Hdn. simpl.
          destruct (Hshape n dn Hdn) as (-> & _ & _). reflexivity. }
    assert (forall n s,
              (n, s) ∈ omap (fun n0 => (fun d0 => (n0, state d0))
                                         <$> node_data_of graph data n0)
                           (nodes (subgraph graph
                             (remove_dups
                                (join_dot (mathlib3_import d)
                                   :: omap (ref_name data)
                                        (List.filter
                                           (fun k0 => negb (ref_has_state data PORTED k0))
                                           deps)))))
              <-> kept n /\ n ∈ nodes graph /\
                  exists dn, data !! n = Some dn /\ state dn = s) as Hns.
    { intros n s. rewrite list_elem_of_omap. unfold subgraph, node_data_of. simpl.
      split.
      - intros (m & Hm & Hnd). apply list_elem_of_filter in Hm as [Hm Hg].
        destruct (decide (m ∈ nodes graph)); [|contradiction].
        destruct (data !! m) as [dm|] eqn:Hdm; [|discriminate].
        simpl in Hnd. injection Hnd as <- <-.
        split; [apply Hkept, Hm|]. split; [exact Hg|]. eauto.
      - intros (Hkn & Hg & dn & Hdn & <-). exists n. split.
        + apply list_elem_of_filter. split; [apply Hkept, Hkn | exact Hg].
        + destruct (decide (n ∈ nodes graph)); [|contradiction].
          rewrite Hdn. reflexivity. }
    split; [|split; [exact Hns|split]].
    + intros a b. unfold subgraph, edge. simpl. rewrite list_elem_of_filter. simpl.
      split.
      * intros [[Ha Hb] He]. apply Hkept in Ha, Hb. auto.
      * intros (He & Ha & Hb). apply Hkept in Ha, Hb. auto.
    + apply Hns. split; [left; reflexivity|]. split; [exact Hk|]. eauto.
    + intros n Hn. apply Hns in Hn as ([-> | (_ & dn & Hdn & Hst)] & _ & dn' & Hdn' & Hp);
        [reflexivity|]. congruence.
Qed.
End DepGraph.

Lemma dep_graph_data_spec_witness :
  exists data d es ns,
    get_data no_lines no_labels no_history reduced_abc abc_port_status = Return data /\
    data !! "C" = Some d /\
    dep_graph_data reduced_abc data d = Return (es, ns) /\
    (forall n, (n, PORTED) ∈ ns -> n = "C").
Proof.
  destruct (proj2 (dep_graph_data_spec no_lines no_labels no_history reduced_abc
                     abc_port_status _ "C" _ eq_refl eq_refl))
    as (deps & es & ns & _ & Hrun & _ & _ & _ & Hported).
  - vm_compute. do 2 right. left.
  - eexists _, _, es, ns. split; [reflexivity|]. split; [reflexivity|].
    split; [exact Hrun | exact Hported].
Defined.

(** ** The statistics of a diff *)

Lemma startswith_plus_minus (l : string) :
  startswith "+" l = true -> startswith "-" l = false.
Proof.
  unfold startswith. intros H. apply prefix_split in H as [t ->]. reflexivity.
Qed.

(** X17. In [diff_stat] the added and the removed lines are counted apart:
    no line counts as both, so the two numbers are not negative and together
    do not exceed the number of lines of the diff. *)
Theorem diff_stat_bounds (self : ForwardPortInfo) :
  0 <= (diff_stat self).1 /\ 0 <= (diff_stat self).2 /\
  (diff_stat self).1 + (diff_stat self).2 <= Z.of_nat (length (diff_lines self)).
Proof.
  unfold diff_stat. simpl. split; [lia|]. split; [lia|].
  induction (diff_lines self) as [|l ls IH]; simpl; [lia|].
  destruct (startswith "+" l) eqn:Hp.
  - rewrite (startswith_plus_minus l Hp). simpl length. lia.
  - destruct (startswith "-" l); simpl length; lia.
Qed.

(** ** The commits between two fences *)

Section HistoryFacts.
Context (summary_of : Commit -> string).
Context (iter_commits_touching : Commit -> Commit -> string -> list Commit).
Context (iter_commits_before : Commit -> Commit -> list Commit).
Context (commit_diff : Commit -> Commit -> string -> list string).

Lemma insert_between_spec (commits : list (Commit * option string))
  (between : list Commit) :
  insert_between commits between
  = (reverse ((fun c => (c, None)) <$> between) ++ commits)%list.
Proof.
  unfold insert_between. revert commits.
  induction between as [|c cs IH]; intros commits; simpl; [reflexivity|].
  rewrite IH, reverse_cons, <- app_assoc. reflexivity.
Qed.

Lemma visit_commit_last (fname : string)
  (st : list (Commit * option string) * Commit) (c : Commit) :
  (visit_commit summary_of iter_commits_before commit_diff fname st c).2 = c.
Proof.
  unfold visit_commit. destruct (is_uninteresting_commit summary_of c); reflexivity.
Qed.

Lemma visit_commit_commits (fname : string)
  (st : list (Commit * option string) * Commit) (c : Commit) :
  exists d,
    (visit_commit summary_of iter_commits_before commit_diff fname st c).1
    = (c, d) :: insert_between st.1 (iter_commits_before st.2 c) /\
    (forall x, d = Some x ->
       is_uninteresting_commit summary_of c = false /\
       commit_diff st.2 c fname = [x]).
Proof.
  unfold visit_commit. destruct (is_uninteresting_commit summary_of c).
  - exists None. split; [reflexivity | discriminate].
  - exists (only_diff (commit_diff st.2 c fname)). split; [reflexivity|].
    intros x Hx. split; [reflexivity|].
    destruct (commit_diff st.2 c fname) as [|y [|z l]]; simpl in Hx;
      try discriminate. congruence.
Qed.

Lemma fst_none_fmap (l : list Commit) :
  ((fun c => (c, @None string)) <$> l).*1 = l.
Proof.
  induction l as [|c l IH]; [reflexivity|].
  rewrite !fmap_cons, IH. reflexivity.
Qed.

Lemma last_before_cons (last c0 : Commit) (cs : list Commit) (i : nat) :
  (i <= length cs)%nat ->
  last_before last (c0 :: cs) (S i) = last_before c0 cs i.
Proof.
  intros Hi. destruct i as [|j]; simpl; [reflexivity|].
  destruct (lookup_lt_is_Some_2 cs j) as [c Hc]; [lia|].
  rewrite Hc. reflexivity.
Qed.

Lemma only_diff_some (diffs : list string) (d : string) :
  only_diff diffs = Some d <-> diffs = [d].
Proof.
  destruct diffs as [|x [|y l]]; simpl; split; intros H;
    try discriminate; congruence.
Qed.

(** The entries with a diff after one round of the outer loop. *)
Lemma visit_commit_diff_entry (fname : string)
  (st : list (Commit * option string) * Commit) (c0 c : Commit) (d : string) :
  (c, Some d) ∈ (visit_commit summary_of iter_commits_before commit_diff
                   fname st c0).1 <->
  (c, Some d) ∈ st.1 \/
  (c = c0 /\ is_uninteresting_commit summary_of c0 = false /\
   commit_diff st.2 c0 fname = [d]).
Proof.
  assert ((c, Some d) ∈ insert_between st.1 (iter_commits_before st.2 c0)
          <-> (c, Some d) ∈ st.1) as Hins.
  { rewrite insert_between_spec, elem_of_app. split; [|auto].
    intros [H | H]; [|exact H].
    apply elem_of_reverse, list_elem_of_fmap in H as (x & Hx & _).
    discriminate. }
  unfold visit_commit.
  destruct (is_uninteresting_commit summary_of c0); simpl;
    rewrite elem_of_cons, Hins.
  - split; [intros [H | H]; [discriminate | auto]|].
    intros [H | (_ & H & _)]; [auto | discriminate].
  - split.
    + intros [H | H]; [|auto]. injection H as -> Hd. symmetry in Hd.
      apply only_diff_some in Hd. auto.
    + intros [H | (-> & _ & Hd)]; [auto|]. left.
      apply only_diff_some in Hd. rewrite Hd. reflexivity.
Qed.

(** The outer loop: the commit it ends on, the entries with a diff, and the
    order of the commits. *)
Lemma visit_fold_spec (fname : string) (cs : list Commit) :
  forall (commits : list (Commit * option string)) (last : Commit),
    (foldl (visit_commit summary_of iter_commits_before commit_diff fname)
           (commits, last) cs).2 = last_before last cs (length cs) /\
    (forall c d,
       (c, Some d) ∈ (foldl (visit_commit summary_of iter_commits_before
                               commit_diff fname) (commits, last) cs).1 <->
       (c, Some d) ∈ commits \/
       exists i, cs !! i = Some c /\
                 is_uninteresting_commit summary_of c = false /\
                 commit_diff (last_before last cs i) c fname = [d]) /\
    exists newer,
      (foldl (visit_commit summary_of iter_commits_before commit_diff fname)
             (commits, last) cs).1.*1 = (newer ++ commits.*1)%list /\
      reverse cs `sublist_of` newer.
Proof.
  induction cs as [|c0 cs IH]; intros commits last.
  - simpl. split; [reflexivity|]. split.
    + intros c d. split; [auto|]. intros [H | (i & Hi & _)]; [exact H|].
      rewrite lookup_nil in Hi. discriminate.
    + exists []. split; [reflexivity | constructor].
  - simpl foldl.
    pose proof (visit_commit_diff_entry fname (commits, last) c0) as Hent.
    destruct (visit_commit_commits fname (commits, last) c0) as (dx & Hv & _).
    pose proof (visit_commit_last fname (commits, last) c0) as Hl.
    destruct (visit_commit summary_of iter_commits_before commit_diff fname
                (commits, last) c0) as [commits' last'] eqn:Hst.
    simpl in Hent, Hv, Hl. subst last'.
    destruct (IH commits' c0) as (IHlast & IHent & newer & IHeq & IHsub).
    split; [|split].
    + rewrite IHlast. symmetry. apply last_before_cons. simpl. lia.
    + intros c d. rewrite IHent, Hent. split.
      * intros [[H | (-> & Hu & Hd)] | (i & Hi & Hu & Hd)].
        -- left. exact H.
        -- right. exists 0%nat. auto.
        -- right. exists (S i). split; [exact Hi|]. split; [exact Hu|].
           rewrite last_before_cons; [exact Hd|].
           apply Nat.lt_le_incl. eapply lookup_lt_Some. exact Hi.
      * intros [H | (i & Hi & Hu & Hd)]; [auto|].
        destruct i as [|i]; simpl in Hi.
        -- injection Hi as ->. left. right. auto.
        -- right. exists i. split; [exact Hi|]. split; [exact Hu|].
           rewrite last_before_cons in Hd; [exact Hd|].
           apply Nat.lt_le_incl. eapply lookup_lt_Some. exact Hi.
    + exists (newer ++ c0 :: reverse (iter_commits_before last c0))%list. split.
      * rewrite IHeq, Hv. simpl.
        rewrite insert_between_spec, fmap_app, fmap_reverse, fst_none_fmap.
        rewrite <- app_assoc. reflexivity.
      * rewrite reverse_cons. apply sublist_app; [exact IHsub|].
        apply sublist_skip, sublist_nil_l.
Qed.


(** X19. The entries of [commits_and_diffs_between] that carry a diff are
    those of the commits that the outer loop visits, that are not
    uninteresting commits and that have exactly one diff for the file
    against the commit of the round before (the base in the first round);
    the diff carried is that one. *)
Theorem commits_and_diffs_between_diffs (base head : Commit) (fname : string)
  (c : Commit) (d : string) :
  (c, Some d) ∈ commits_and_diffs_between summary_of iter_commits_touching
                  iter_commits_before commit_diff base head fname <->
  exists i,
    iter_commits_touching base head fname !! i = Some c /\
    is_uninteresting_commit summary_of c = false /\
    commit_diff (last_before base (iter_commits_touching base head fname) i)
                c fname = [d].
Proof.
  unfold commits_and_diffs_between. cbv zeta.
  destruct (visit_fold_spec fname (iter_commits_touching base head fname)
              [] base) as (_ & Hent & _).
  rewrite insert_between_spec, elem_of_app, Hent. split.
  - intros [H | [H | H]]; [| inversion H | exact H].
    apply elem_of_reverse, list_elem_of_fmap in H as (x & Hx & _).
    discriminate.
  - auto.
Qed.
End HistoryFacts.

Lemma commits_and_diffs_between_diffs_witness :
  (commit_b, Some "@@ -1 +1 @@")
  ∈ commits_and_diffs_between toy_summary toy_touching toy_before toy_diff
      commit_a commit_c "src/a.lean".
Proof.
  apply (proj2 (commits_and_diffs_between_diffs toy_summary toy_touching
                  toy_before toy_diff commit_a commit_c "src/a.lean"
                  commit_b "@@ -1 +1 @@")).
  exists 0%nat. repeat split.
Defined.

(** ** The name of a repository on GitHub *)

(** X20. [get_github_name] undoes the two ways of writing the address of a
    repository on GitHub, and accepts nothing else: the name it returns,
    prefixed by [https://github.com/] or by [git@github.com:], is the url of
    the first remote; without a remote it fails with [IndexError], and with
    a first remote of another form with [RuntimeError]. *)
Theorem get_github_name_spec :
  (forall name rest,
     get_github_name (("https://github.com/" +:+ name) :: rest) = Return name) /\
  (forall name rest,
     get_github_name (("git@github.com:" +:+ name) :: rest) = Return name) /\
  (forall urls name, get_github_name urls = Return name ->
     exists rest, urls = ("https://github.com/" +:+ name) :: rest \/
                  urls = ("git@github.com:" +:+ name) :: rest) /\
  (forall urls e, get_github_name urls = Raise e ->
     (urls = [] /\ e = IndexError) \/ (urls <> [] /\ e = OtherError)).
Proof.
  split; [|split; [|split]].
  - intros name rest. unfold get_github_name. simpl.
    change (startswith "https://github.com/" ("https://github.com/" +:+ name))
      with (String.prefix "https://github.com/" ("https://github.com/" +:+ name)).
    rewrite prefix_app, removeprefix_app. reflexivity.
  - intros name rest. unfold get_github_name. simpl.
    replace (startswith "https://github.com/" ("git@github.com:" +:+ name))
      with false by reflexivity.
    change (startswith "git@github.com:" ("git@github.com:" +:+ name))
      with (String.prefix "git@github.com:" ("git@github.com:" +:+ name)).
    rewrite prefix_app, removeprefix_app. reflexivity.
  - intros urls name. unfold get_github_name.
    destruct urls as [|url rest]; simpl; [discriminate|].
    destruct (startswith "https://github.com/" url) eqn:H1.
    + apply prefix_split in H1 as [t ->]. rewrite removeprefix_app.
      intros H. injection H as <-. exists rest. left. reflexivity.
    + destruct (startswith "git@github.com:" url) eqn:H2; [|discriminate].
      apply prefix_split in H2 as [t ->]. rewrite removeprefix_app.
      intros H. injection H as <-. exists rest. right. reflexivity.
  - intros urls e. unfold get_github_name.
    destruct urls as [|url rest]; simpl.
    + intros H. injection H as <-. left. auto.
    + destruct (startswith "https://github.com/" url); [discriminate|].
      destruct (startswith "git@github.com:" url); [discriminate|].
      intros H. injection H as <-. right. split; [discriminate | reflexivity].
Qed.

Lemma get_github_name_spec_witness :
  exists rest,
    ["git@github.com:leanprover-community/mathlib4"]
      = ("https://github.com/" +:+ "leanprover-community/mathlib4") :: rest \/
    ["git@github.com:leanprover-community/mathlib4"]
      = ("git@github.com:" +:+ "leanprover-community/mathlib4") :: rest.
Proof.
  apply (proj1 (proj2 (proj2 get_github_name_spec))
           ["git@github.com:leanprover-community/mathlib4"]
           "leanprover-community/mathlib4").
  reflexivity.
Defined.

(** ** The fences: when the reconciler is silent, and what it proceeds with *)

Section FenceFacts.
Context {Repo : Type}.
Context (repo_commit : Repo -> string -> result Commit).

Lemma first_real_commit_some (mathlib_repo : Repo) (hs : list FileHistoryEntry)
  (c : Commit) :
  first_real_commit repo_commit mathlib_repo hs = Some c <->
  exists older h newer,
    hs = (older ++ h :: newer)%list /\
    repo_commit mathlib_repo (commit (h_source h)) = Return c /\
    forall h', h' ∈ older ->
               exists e, repo_commit mathlib_repo (commit (h_source h')) = Raise e.
Proof.
  induction hs as [|h hs IH]; simpl.
  - split; [discriminate|]. intros (older & h & newer & Heq & _).
    destruct older; discriminate.
  - destruct (repo_commit mathlib_repo (commit (h_source h))) as [c0|e] eqn:Hh.
    + split.
      * intros H. injection H as <-. exists [], h, hs.
        split; [reflexivity|]. split; [exact Hh|]. intros h' Hin. inversion Hin.
      * intros (older & h0 & newer & Heq & Hc & Hfail). destruct older as [|o older].
        -- simpl in Heq. injection Heq as <- _. congruence.
        -- simpl in Heq. injection Heq as <- _.
           destruct (Hfail h) as [e He]; [left|]. congruence.
    + rewrite IH. split.
      * intros (older & h0 & newer & -> & Hc & Hfail).
        exists (h :: older), h0, newer. split; [reflexivity|]. split; [exact Hc|].
        intros h' Hin. apply elem_of_cons in Hin as [-> | Hin]; eauto.
      * intros (older & h0 & newer & Heq & Hc & Hfail). destruct older as [|o older].
        -- simpl in Heq. injection Heq as <- _. congruence.
        -- simpl in Heq. injection Heq as <- ->.
           exists older, h0, newer. split; [reflexivity|]. split; [exact Hc|].
           intros h' Hin. apply Hfail. right. exact Hin.
Qed.

Lemma first_real_commit_none (mathlib_repo : Repo)
  (hs : list FileHistoryEntry) :
  first_real_commit repo_commit mathlib_repo hs = None <->
  forall h, h ∈ hs ->
            exists e, repo_commit mathlib_repo (commit (h_source h)) = Raise e.
Proof.
  induction hs as [|h hs IH]; simpl.
  - split; [|reflexivity]. intros _ h Hin. inversion Hin.
  - destruct (repo_commit mathlib_repo (commit (h_source h))) as [c0|e] eqn:Hh.
    + split; [discriminate|]. intros H.
      destruct (H h) as [e He]; [left|]. congruence.
    + rewrite IH. split.
      * intros H h' Hin. apply elem_of_cons in Hin as [-> | Hin]; eauto.
      * intros H h' Hin. apply H. right. exact Hin.
Qed.

(** X21. The base commit is the commit of the last entry of the history list
    of the file that resolves in the repository: the list is read from its
    end, the entries after that one do not resolve and the entries before it
    are not looked at. There is no base commit exactly when no entry of the
    list resolves. *)
Theorem base_commit_last_resolving (mathlib_repo : Repo)
  (f_status : Mathlib3FileData) (src : Source) :
  (forall c,
     (resolved_fences repo_commit mathlib_repo f_status src).1 = Some c <->
     exists older h newer,
       mathlib4_history f_status = (older ++ h :: newer)%list /\
       repo_commit mathlib_repo (commit (h_source h)) = Return c /\
       forall h', h' ∈ newer ->
         exists e, repo_commit mathlib_repo (commit (h_source h')) = Raise e) /\
  ((resolved_fences repo_commit mathlib_repo f_status src).1 = None <->
   forall h, h ∈ mathlib4_history f_status ->
     exists e, repo_commit mathlib_repo (commit (h_source h)) = Raise e).
Proof.
  unfold resolved_fences. simpl. split.
  - intros c. rewrite first_real_commit_some. split.
    + intros (newer' & h & older' & Heq & Hc & Hfail).
      exists (reverse older'), h, (reverse newer').
      split; [|split; [exact Hc|]].
      * rewrite <- (reverse_involutive (mathlib4_history f_status)), Heq.
        rewrite reverse_app, reverse_cons, <- app_assoc. reflexivity.
      * intros h' Hin. apply Hfail. rewrite elem_of_reverse in Hin. exact Hin.
    + intros (older & h & newer & Heq & Hc & Hfail).
      exists (reverse newer), h, (reverse older).
      split; [|split; [exact Hc|]].
      * rewrite Heq, reverse_app, reverse_cons, <- app_assoc. reflexivity.
      * intros h' Hin. apply Hfail. rewrite elem_of_reverse in Hin. exact Hin.
  - rewrite first_real_commit_none. split.
    + intros H h Hin. apply H. rewrite elem_of_reverse. exact Hin.
    + intros H h Hin. apply H. rewrite elem_of_reverse in Hin. exact Hin.
Qed.

(** X22. What the reconciler proceeds with: both fences are commits that
    resolve in the repository, the sync fence being the recorded commit of
    the file when that resolves and otherwise the base fence; and the
    reconciler logs at most one warning for a file, and none at all for an
    UNPORTED file, for a file without a source and for a file whose source is
    in another repository. *)
Theorem choose_fences_resolved (mathlib_repo : Repo) (f_import : string)
  (f_status : Mathlib3FileData) :
  (forall w base sync,
     choose_fences repo_commit mathlib_repo f_import f_status
       = (w, Proceed base sync) ->
     (exists rev, repo_commit mathlib_repo rev = Return base) /\
     exists src, source (status f_status) = Some src /\
       (repo_commit mathlib_repo (commit src) = Return sync \/
        (sync = base /\
         exists e, repo_commit mathlib_repo (commit src) = Raise e))) /\
  (length (choose_fences repo_commit mathlib_repo f_import f_status).1 <= 1)%nat /\
  (state f_status = UNPORTED ->
   (choose_fences repo_commit mathlib_repo f_import f_status).1 = []) /\
  (source (status f_status) = None \/
   (exists src, source (status f_status) = Some src /\
                repo src <> "leanprover-community/mathlib") ->
   choose_fences repo_commit mathlib_repo f_import f_status = ([], Skipped)).
Proof.
  unfold choose_fences, resolved_fences, try_commit.
  destruct (source (status f_status)) as [src|] eqn:Hsrc.
  2: { repeat split; try discriminate; simpl; auto. }
  destruct (String.eqb_spec (repo src) "leanprover-community/mathlib") as [Hr | Hr];
    simpl.
  2: { repeat split; try discriminate; simpl; auto. }
  destruct (first_real_commit repo_commit mathlib_repo
              (reverse (mathlib4_history f_status))) as [b|] eqn:Hb;
    destruct (repo_commit mathlib_repo (commit src)) as [s|e] eqn:Hs.
  - split; [|split; [simpl; lia|split; [reflexivity|]]].
    + intros w base sync H. injection H as _ <- <-.
      apply first_real_commit_some in Hb as (o & h & n & _ & Hh & _).
      split; [eauto|]. exists src. auto.
    + intros [? | (src' & Heq & Hne)]; [discriminate|]. congruence.
  - split; [|split; [|split]].
    + intros w base sync H. injection H as _ <- <-.
      apply first_real_commit_some in Hb as (o & h & n & _ & Hh & _).
      split; [eauto|]. exists src. split; [reflexivity|]. right. eauto.
    + case_bool_decide; simpl; lia.
    + intros Hst. case_bool_decide; [contradiction | reflexivity].
    + intros [? | (src' & Heq & Hne)]; [discriminate|]. congruence.
  - split; [|split; [|split]].
    + intros w base sync H. injection H as _ <- <-.
      split; [eauto|]. exists src. auto.
    + case_bool_decide; simpl; lia.
    + intros Hst. case_bool_decide; [congruence | reflexivity].
    + intros [? | (src' & Heq & Hne)]; [discriminate|]. congruence.
  - split; [|split; [|split]].
    + intros w base sync H. discriminate.
    + case_bool_decide; simpl; lia.
    + intros Hst. case_bool_decide; [contradiction | reflexivity].
    + intros [? | (src' & Heq & Hne)]; [discriminate|]. congruence.
Qed.
End FenceFacts.

Lemma base_commit_last_resolving_witness :
  (resolved_fences toy_repo_commit mathlib_dir file_no_sync
     (mathlib_source "dead")).1 = Some {| hexsha := "bbbb" |}.
Proof.
  apply (proj2 (proj1 (base_commit_last_resolving toy_repo_commit mathlib_dir
                         file_no_sync (mathlib_source "dead"))
                  {| hexsha := "bbbb" |})).
  exists [], {| h_source := mathlib_source "bbbb" |},
         [{| h_source := mathlib_source "beef" |}].
  split; [reflexivity|]. split; [reflexivity|].
  intros h' Hin. apply list_elem_of_singleton in Hin as ->.
  exists ValueError. reflexivity.
Defined.

Lemma choose_fences_resolved_witness :
  (exists rev, toy_repo_commit mathlib_dir rev = Return {| hexsha := "bbbb" |}) /\
  (choose_fences toy_repo_commit mathlib_dir "C" file_no_fence).1 = [].
Proof.
  split.
  - apply (proj1 (choose_fences_resolved toy_repo_commit mathlib_dir "B"
                    file_no_sync) [NoSyncCommit "B"]
             {| hexsha := "bbbb" |} {| hexsha := "bbbb" |} eq_refl).
  - apply (proj1 (proj2 (proj2 (choose_fences_resolved toy_repo_commit mathlib_dir
                                  "C" file_no_fence)))).
    reflexivity.
Defined.
